(** * Voice chatbot front end: the [App] component of [src/App.jsx]

    A shallow embedding of the handlers of the React component [App]:
    [startSpeechRecognition], the four recognition callbacks,
    [resetRecording], [handleUserInput], [speakResponse],
    [animateMessageSent], the voice-list click handler and the modal's
    cancel handler; and of what [App] renders from its state.

    - The nine [useState] cells are the record [State].
    - Calls on the platform (fetch, speech synthesis, speech recognition,
      alert, console) are recorded, in program order, in a trace.
    - A handler is a closure of one render: what it READS ([voices],
      [selectedVoice]) comes from the render that created it, what it
      WRITES (the [set...] calls) goes to the live state.
    - [try]/[catch]/[finally] and [throw] are modelled by a state and
      exception monad.  An exception keeps the effects done before it.
    - An [await] settles before the next event is taken: a handler runs to
      completion, and the events of a run are handled one after the
      other.
    - Where the source converts a value to a string (the utterance
      constructor, the template literal), the conversion is modelled with
      the [TypeError] it can throw. *)

From Stdlib Require Import List String Ascii NArith Bool Arith Lia.
Import ListNotations.

(** ** JavaScript strings *)

Module JsString.

(** A JS string is a sequence of UTF-16 code units. *)
Definition code_unit := N.
Definition t := list code_unit.

(** A source literal (ASCII only in [App.jsx]). *)
Definition lit (s : string) : t := map N_of_ascii (list_ascii_of_string s).

(** ECMAScript [WhiteSpace] and [LineTerminator] code points, the ones
    [String.prototype.trim] strips. *)
Definition is_white_space (c : code_unit) : bool :=
  ((9 <=? c) && (c <=? 13)         (* TAB, LF, VT, FF, CR *)
   || (c =? 32)                    (* SPACE *)
   || (c =? 160)                   (* NO-BREAK SPACE *)
   || (c =? 5760)                  (* U+1680 *)
   || ((8192 <=? c) && (c <=? 8202)) (* U+2000 .. U+200A *)
   || (c =? 8232) || (c =? 8233)   (* LINE / PARAGRAPH SEPARATOR *)
   || (c =? 8239)                  (* U+202F *)
   || (c =? 8287)                  (* U+205F *)
   || (c =? 12288)                 (* U+3000 *)
   || (c =? 65279))%N.             (* U+FEFF *)

Fixpoint trim_start (s : t) : t :=
  match s with
  | [] => []
  | c :: s' => if is_white_space c then trim_start s' else s
  end.

Definition trim_end (s : t) : t := rev (trim_start (rev s)).

(** [s.trim()] *)
Definition trim (s : t) : t := trim_end (trim_start s).

(** [!s] on a string: only the empty string is falsy. *)
Definition falsy (s : t) : bool :=
  match s with [] => true | _ :: _ => false end.

(** Every code unit of the string is white space (the empty string
    included). *)
Definition blank (s : t) : bool := forallb is_white_space s.

End JsString.

Abbreviation jsstring := JsString.t.
Abbreviation lit := JsString.lit.

(** ** JavaScript values that reach the component *)

(** What [res.json()] can resolve to, plus [undefined] (the value of a
    property that is absent).  A number carries its source literal: the
    component never computes with it. *)
#[warnings="-register-all"] Inductive jsval : Type :=
| Undefined
| JNull
| JBool (b : bool)
| JNum (literal : jsstring)
| JStr (s : jsstring)
| JArr (items : list jsval)
| JObj (props : list (jsstring * jsval)).

Definition jsstring_eqb (a b : jsstring) : bool :=
  if list_eq_dec N.eq_dec a b then true else false.

(** Own property lookup in a parsed object: [JSON.parse] keeps the LAST
    of several members with one key. *)
Fixpoint own_property (props : list (jsstring * jsval)) (key : jsstring)
  : option jsval :=
  match props with
  | [] => None
  | (k, v) :: rest =>
      match own_property rest key with
      | Some v' => Some v'
      | None => if jsstring_eqb k key then Some v else None
      end
  end.

(** Exceptions that can be raised inside [handleUserInput]'s [try]. *)
Inductive exn : Type :=
| FetchRejected                      (* fetch's promise rejected: network failure *)
| JsError (message : jsstring)       (* [throw new Error(message)] *)
| JsonRejected                       (* [res.json()] rejected: body is not JSON *)
| TypeErrorPropertyOf (v : jsval)    (* property read on [null] / [undefined] *)
| TypeErrorToPrimitive (v : jsval).  (* [ToString] of an object without a usable
                                        [toString] / [valueOf] *)

(** [data.response] for [data] a value produced by [res.json()].  Reading a
    property of [null] or [undefined] throws; numbers, booleans, strings and
    arrays have no property of that name on their prototypes. *)
Definition get_response (data : jsval) : jsval + exn :=
  match data with
  | Undefined => inr (TypeErrorPropertyOf Undefined)
  | JNull => inr (TypeErrorPropertyOf JNull)
  | JObj props =>
      match own_property props (lit "response") with
      | Some v => inl v
      | None => inl Undefined
      end
  | _ => inl Undefined
  end.

(** Whether [ToString(v)] throws, for [v] a value produced by [res.json()].
    A parsed object is converted by [OrdinaryToPrimitive]: an own member
    named [toString] (never callable, coming from JSON) hides
    [Object.prototype.toString], and [valueOf], own or inherited, gives no
    primitive, so the conversion throws a [TypeError]; without that member
    the result is '[object Object]'.  An array is converted by [join],
    which converts each element that is not [null].  Every other value
    converts. *)
Fixpoint throws_on_ToString (v : jsval) : bool :=
  match v with
  | JObj props =>
      match own_property props (lit "toString") with
      | Some _ => true
      | None => false
      end
  | JArr items => existsb throws_on_ToString items
  | _ => false
  end.

(** ** The platform *)

(** A [SpeechSynthesisVoice] of the catalog ([voice.name], [voice.lang]). *)
Record Voice : Type := mkVoice { voice_name : jsstring; voice_lang : jsstring }.

(** The [RequestInit] handed to [fetch].  The body is the argument of
    [JSON.stringify], kept unserialised. *)
Record RequestInit : Type := mkRequestInit {
  req_method : jsstring;
  req_headers : list (jsstring * jsstring);
  req_body_json : jsval
}.

(** A [Response]: its status and what [res.json()] gives: the parsed body,
    or [None] when the body is not JSON. *)
Record Response : Type := mkResponse {
  res_status : N;
  res_body : option jsval
}.

(** [res.ok]: the status is in the range 200-299. *)
Definition res_ok (r : Response) : bool :=
  ((200 <=? res_status r) && (res_status r <=? 299))%N.

(** How a [fetch] settles. *)
Inductive FetchOutcome : Type :=
| NetworkFailure
| Responded (r : Response).

(** What the environment of one page gives the component. *)
Record Platform : Type := mkPlatform {
  (** [window.SpeechRecognition || window.webkitSpeechRecognition] is truthy *)
  recognition_available : bool;
  (** the remote service, seen through [fetch] *)
  service : jsstring -> RequestInit -> FetchOutcome
}.

(** A [SpeechSynthesisUtterance]: the constructor's argument and the
    [voice] attribute; [None] is an absent voice ([voices[i]] gave
    [undefined]). *)
Record Utterance : Type := mkUtterance {
  utt_text : jsval;
  utt_voice : option Voice
}.

(** An argument of a console call. *)
Inductive LogArg : Type :=
| LogStr (s : jsstring)
| LogVal (v : jsval)
| LogExn (e : exn)
| LogTemplate (before : jsstring) (v : jsval) (after : jsstring).

(** Calls on the platform, as the trace records them.  A recognition
    instance is named by its creation rank. *)
Inductive Effect : Type :=
| Alert (message : jsstring)
| ConsoleLog (args : list LogArg)
| ConsoleError (args : list LogArg)
| Fetch (url : jsstring) (init : RequestInit)
| ResJson (r : Response)
| SynthCancel
| SynthSpeak (utterance : Utterance)
| RecognitionNew (id : nat)
| RecognitionConfigure (id : nat) (lang : jsstring)
    (interimResults : bool) (maxAlternatives : N)
| RecognitionStart (id : nat).

(** ** Component state: the [useState] cells of [App] *)

Record State : Type := mkState {
  isLoading : bool;
  response : jsval;
  error : jsstring;
  userInput : jsstring;
  selectedVoice : nat;
  isRecording : bool;
  voices : list Voice;
  showVoices : bool;
  isModalOpen : bool
}.

(** The initial values given to [useState]. *)
Definition initial_state : State :=
  {| isLoading := false; response := JStr []; error := [];
     userInput := []; selectedVoice := 0; isRecording := false;
     voices := []; showVoices := false; isModalOpen := false |}.

Definition with_isLoading (b : bool) (s : State) : State :=
  {| isLoading := b; response := response s; error := error s;
     userInput := userInput s; selectedVoice := selectedVoice s;
     isRecording := isRecording s; voices := voices s;
     showVoices := showVoices s; isModalOpen := isModalOpen s |}.

Definition with_response (v : jsval) (s : State) : State :=
  {| isLoading := isLoading s; response := v; error := error s;
     userInput := userInput s; selectedVoice := selectedVoice s;
     isRecording := isRecording s; voices := voices s;
     showVoices := showVoices s; isModalOpen := isModalOpen s |}.

Definition with_error (e : jsstring) (s : State) : State :=
  {| isLoading := isLoading s; response := response s; error := e;
     userInput := userInput s; selectedVoice := selectedVoice s;
     isRecording := isRecording s; voices := voices s;
     showVoices := showVoices s; isModalOpen := isModalOpen s |}.

Definition with_userInput (i : jsstring) (s : State) : State :=
  {| isLoading := isLoading s; response := response s; error := error s;
     userInput := i; selectedVoice := selectedVoice s;
     isRecording := isRecording s; voices := voices s;
     showVoices := showVoices s; isModalOpen := isModalOpen s |}.

Definition with_selectedVoice (i : nat) (s : State) : State :=
  {| isLoading := isLoading s; response := response s; error := error s;
     userInput := userInput s; selectedVoice := i;
     isRecording := isRecording s; voices := voices s;
     showVoices := showVoices s; isModalOpen := isModalOpen s |}.

Definition with_isRecording (b : bool) (s : State) : State :=
  {| isLoading := isLoading s; response := response s; error := error s;
     userInput := userInput s; selectedVoice := selectedVoice s;
     isRecording := b; voices := voices s;
     showVoices := showVoices s; isModalOpen := isModalOpen s |}.

Definition with_voices (vs : list Voice) (s : State) : State :=
  {| isLoading := isLoading s; response := response s; error := error s;
     userInput := userInput s; selectedVoice := selectedVoice s;
     isRecording := isRecording s; voices := vs;
     showVoices := showVoices s; isModalOpen := isModalOpen s |}.

Definition with_showVoices (b : bool) (s : State) : State :=
  {| isLoading := isLoading s; response := response s; error := error s;
     userInput := userInput s; selectedVoice := selectedVoice s;
     isRecording := isRecording s; voices := voices s;
     showVoices := b; isModalOpen := isModalOpen s |}.

Definition with_isModalOpen (b : bool) (s : State) : State :=
  {| isLoading := isLoading s; response := response s; error := error s;
     userInput := userInput s; selectedVoice := selectedVoice s;
     isRecording := isRecording s; voices := voices s;
     showVoices := showVoices s; isModalOpen := b |}.

(** ** The world a handler runs in *)

(** The live state, the trace of platform calls so far, and the recognition
    instances created so far: instance [i] is entry [i], and holds the
    render whose closures were installed as its callbacks ([None] until
    they are installed). *)
Record World : Type := mkWorld {
  st : State;
  trace : list Effect;
  recognitions : list (option State)
}.

Definition initial_world : World :=
  {| st := initial_state; trace := []; recognitions := [] |}.

(** ** The handler monad: state, trace and exceptions *)

Definition M (A : Type) : Type := World -> (A + exn) * World.

Definition ret {A : Type} (a : A) : M A := fun w => (inl a, w).

Definition throw {A : Type} (e : exn) : M A := fun w => (inr e, w).

Definition bind {A B : Type} (m : M A) (k : A -> M B) : M B :=
  fun w =>
    match m w with
    | (inl a, w') => k a w'
    | (inr e, w') => (inr e, w')
    end.

Notation "x <- m ;; k" := (bind m (fun x => k))
  (at level 61, m at next level, right associativity).
Notation "m ;; k" := (bind m (fun _ => k))
  (at level 61, right associativity).

(** [try { body } catch (e) { handler } finally { fin }], for a [finally]
    block without [return]: [fin] runs on every path, and the statement
    completes as [body] (or as [handler], when [body] threw) did. *)
Definition try_catch_finally {A : Type}
  (body : M A) (handler : exn -> M A) (fin : M unit) : M A :=
  fun w =>
    let (r1, w1) := body w in
    let (r2, w2) :=
      match r1 with
      | inl a => (inl a, w1)
      | inr e => handler e w1
      end in
    let (r3, w3) := fin w2 in
    match r3 with
    | inl _ => (r2, w3)
    | inr e => (inr e, w3)
    end.

(** The value or exception of an expression, in the monad. *)
Definition eval {A : Type} (r : A + exn) : M A :=
  match r with inl a => ret a | inr e => throw e end.

(** A platform call that returns nothing of interest. *)
Definition perform (e : Effect) : M unit :=
  fun w => (inl tt, {| st := st w; trace := trace w ++ [e];
                       recognitions := recognitions w |}).

(** A [set...] call of a [useState] cell. *)
Definition set_state (f : State -> State) : M unit :=
  fun w => (inl tt, {| st := f (st w); trace := trace w;
                       recognitions := recognitions w |}).

Definition setIsLoading (b : bool) : M unit := set_state (with_isLoading b).
Definition setResponse (v : jsval) : M unit := set_state (with_response v).
Definition setError (e : jsstring) : M unit := set_state (with_error e).
Definition setUserInput (i : jsstring) : M unit := set_state (with_userInput i).
Definition setSelectedVoice (i : nat) : M unit := set_state (with_selectedVoice i).
Definition setIsRecording (b : bool) : M unit := set_state (with_isRecording b).
Definition setVoices (vs : list Voice) : M unit := set_state (with_voices vs).
Definition setShowVoices (b : bool) : M unit := set_state (with_showVoices b).
Definition setIsModalOpen (b : bool) : M unit := set_state (with_isModalOpen b).

(** [await fetch(url, init)]: one call on the network; a rejected promise
    is an exception at the [await]. *)
Definition fetch (P : Platform) (url : jsstring) (init : RequestInit)
  : M Response :=
  perform (Fetch url init) ;;
  match service P url init with
  | NetworkFailure => throw FetchRejected
  | Responded r => ret r
  end.

(** [await res.json()] *)
Definition res_json (r : Response) : M jsval :=
  perform (ResJson r) ;;
  match res_body r with
  | None => throw JsonRejected
  | Some v => ret v
  end.


(** [ToString(v)], for its exception only. *)
Definition ToString (v : jsval) : M unit :=
  if throws_on_ToString v then throw (TypeErrorToPrimitive v) else ret tt.

(** [new SpeechSynthesisUtterance(text)]: the optional [DOMString] argument
    is converted with [ToString] unless it is [undefined]; the new
    utterance has no voice. *)
Definition new_SpeechSynthesisUtterance (text : jsval) : M Utterance :=
  match text with
  | Undefined => ret tt
  | _ => ToString text
  end ;;
  ret {| utt_text := text; utt_voice := None |}.

(** Replace entry [i] of a list; out of range, nothing changes. *)
Fixpoint list_set {A : Type} (l : list A) (i : nat) (x : A) : list A :=
  match l, i with
  | [], _ => []
  | _ :: l', O => x :: l'
  | y :: l', S i' => y :: list_set l' i' x
  end.

(** [new SpeechRecognition()]: a fresh instance, no callback installed. *)
Definition new_SpeechRecognition : M nat :=
  fun w =>
    let id := List.length (recognitions w) in
    (inl id, {| st := st w; trace := trace w ++ [RecognitionNew id];
                recognitions := recognitions w ++ [None] |}).

(** [recognition.onstart = ...; recognition.onresult = ...;
    recognition.onerror = ...; recognition.onend = ...]: the closures of
    render [r] become the callbacks of instance [id]. *)
Definition install_callbacks (id : nat) (r : State) : M unit :=
  fun w => (inl tt, {| st := st w; trace := trace w;
                       recognitions := list_set (recognitions w) id (Some r) |}).

(** ** The handlers of [App], as closures of a render [r] *)

Section Handlers.

Variable P : Platform.

(** The render the closures belong to. *)
Variable r : State.

(** The template literal converts [text] with [ToString]. *)
Definition animateMessageSent (text : jsval) : M unit :=
  ToString text ;;
  perform (ConsoleLog [LogTemplate (lit "Visual feedback: ") text (lit " sent.")]).

Definition speakResponse (text : jsval) : M unit :=
  perform SynthCancel ;;
  utterance <- new_SpeechSynthesisUtterance text ;;
  let utterance :=
    {| utt_text := utt_text utterance;
       utt_voice := nth_error (voices r) (selectedVoice r) |} in
  perform (SynthSpeak utterance) ;;
  perform (ConsoleLog [LogStr (lit "Auditory feedback: Response spoken.")]) ;;
  animateMessageSent text.

Definition service_url : jsstring := lit "http://127.0.0.1:5000".

Definition request_init (input : jsstring) : RequestInit :=
  {| req_method := lit "POST";
     req_headers := [(lit "Content-Type", lit "application/json")];
     req_body_json := JObj [(lit "text", JStr input)] |}.

Definition handleUserInput (input : jsstring) : M unit :=
  if JsString.falsy (JsString.trim input) then
    setError (lit "Please speak a valid input.")
  else
    setIsLoading true ;;
    setError [] ;;
    try_catch_finally
      (res <- fetch P service_url (request_init input) ;;
       (if negb (res_ok res)
        then throw (JsError (lit "Failed to get chatbot response"))
        else ret tt) ;;
       data <- res_json res ;;
       v <- eval (get_response data) ;;
       setResponse v ;;
       v' <- eval (get_response data) ;;
       speakResponse v')
      (fun e =>
         perform (ConsoleError
                    [LogStr (lit "Error fetching chatbot response:"); LogExn e]) ;;
         setError (lit "Sorry, there was an issue processing the request."))
      (setIsLoading false).

Definition resetRecording : M unit :=
  perform (ConsoleLog [LogStr (lit "Speech recognition ended")]) ;;
  setIsLoading false ;;
  setIsRecording false ;;
  setIsModalOpen false.

Definition recognition_onstart : M unit :=
  perform (ConsoleLog [LogStr (lit "Speech recognition started")]) ;;
  setIsLoading true ;;
  setIsRecording true ;;
  setIsModalOpen true.

(** [transcript] is [event.results[0][0].transcript]. *)
Definition recognition_onresult (transcript : jsstring) : M unit :=
  let recognizedInput := transcript in
  perform (ConsoleLog [LogStr (lit "User Input:"); LogVal (JStr recognizedInput)]) ;;
  setUserInput recognizedInput ;;
  handleUserInput recognizedInput ;;
  setIsModalOpen false.

(** [code] is [event.error]. *)
Definition recognition_onerror (code : jsstring) : M unit :=
  perform (ConsoleError [LogStr (lit "Speech recognition error"); LogVal (JStr code)]) ;;
  setError (lit "Sorry, there was an error with speech recognition.") ;;
  resetRecording.

Definition recognition_onend : M unit := resetRecording.

Definition startSpeechRecognition : M unit :=
  if negb (recognition_available P) then
    perform (Alert (lit "Speech Recognition is not supported in this browser."))
  else
    recognition <- new_SpeechRecognition ;;
    perform (RecognitionConfigure recognition (lit "en-US") false 1) ;;
    perform (RecognitionStart recognition) ;;
    install_callbacks recognition r.

(** [fetchVoices], with [availableVoices] what [synth.getVoices()] gave. *)
Definition fetchVoices (availableVoices : list Voice) : M unit :=
  setVoices availableVoices.

End Handlers.

(** ** Events and the component as a transition system *)

(** What a recognition instance reports. *)
Inductive RecognitionEvent : Type :=
| Started
| Result (transcript : jsstring)
| Failed (code : jsstring)
| Ended.

(** Everything that makes the component run a handler. *)
Inductive Event : Type :=
| ClickMic                                   (* mic-container onClick *)
| ClickCancel                                (* VoiceInputModal onClose *)
| ChangeInput (value : jsstring)             (* input-box onChange *)
| Submit                                     (* send-button onClick, Enter key *)
| ClickVoice (index : nat)                   (* voice-item onClick *)
| ToggleVoices                               (* show-voices-button onClick *)
| VoicesChanged (availableVoices : list Voice) (* mount, synth.onvoiceschanged *)
| FromRecognition (id : nat) (ev : RecognitionEvent).

(** The callback instance [id] runs for [ev]: the closures of the render
    that created them.  An instance that does not exist reports nothing. *)
Definition recognition_callback (P : Platform) (id : nat) (ev : RecognitionEvent)
  : M unit :=
  fun w =>
    match nth_error (recognitions w) id with
    | Some (Some r) =>
        match ev with
        | Started => recognition_onstart w
        | Result transcript => recognition_onresult P r transcript w
        | Failed code => recognition_onerror code w
        | Ended => recognition_onend w
        end
    | _ => (inl tt, w)
    end.

(** The handler of an event.  A DOM handler is a closure of the latest
    render, whose view of the state is the live state. *)
Definition handler (P : Platform) (ev : Event) : M unit :=
  fun w =>
    let r := st w in
    match ev with
    | ClickMic => startSpeechRecognition P r w
    | ClickCancel => setIsModalOpen false w
    | ChangeInput value => setUserInput value w
    | Submit => handleUserInput P r (userInput r) w
    | ClickVoice index => setSelectedVoice index w
    | ToggleVoices => setShowVoices (negb (showVoices r)) w
    | VoicesChanged availableVoices => fetchVoices availableVoices w
    | FromRecognition id ev' => recognition_callback P id ev' w
    end.

(** One event, processed to completion. *)
Definition step (P : Platform) (ev : Event) (w : World) : World :=
  snd (handler P ev w).

(** A sequence of events, oldest first. *)
Definition run (P : Platform) (evs : list Event) (w : World) : World :=
  fold_left (fun w ev => step P ev w) evs w.

(** ** Observations on a trace *)

Definition is_fetch (e : Effect) : bool :=
  match e with Fetch _ _ => true | _ => false end.

Definition is_recognition_start (e : Effect) : bool :=
  match e with RecognitionStart _ => true | _ => false end.

Definition is_recognition_new (e : Effect) : bool :=
  match e with RecognitionNew _ => true | _ => false end.

Definition is_synth (e : Effect) : bool :=
  match e with SynthCancel | SynthSpeak _ => true | _ => false end.

(** The network calls of a trace, in order. *)
Definition fetches (t : list Effect) : list Effect := filter is_fetch t.

(** The calls on the speech synthesis of a trace, in order. *)
Definition synth_calls (t : list Effect) : list Effect := filter is_synth t.

(** The number of [recognition.start()] calls of a trace. *)
Definition start_calls (t : list Effect) : nat :=
  List.length (filter is_recognition_start t).

(** The number of [new SpeechRecognition()] calls of a trace. *)
Definition new_calls (t : list Effect) : nat :=
  List.length (filter is_recognition_new t).

(** ** Summaries of a run, used to state what the handlers do *)

(** What [speakResponse] hands to the platform. *)
Definition spoken (r : State) (text : jsval) : list Effect :=
  [ SynthCancel;
    SynthSpeak {| utt_text := text;
                  utt_voice := nth_error (voices r) (selectedVoice r) |};
    ConsoleLog [LogStr (lit "Auditory feedback: Response spoken.")];
    ConsoleLog [LogTemplate (lit "Visual feedback: ") text (lit " sent.")] ].

(** How one submission ends: the exception caught, or the value read from
    [data.response]. *)
Definition settle (P : Platform) (input : jsstring) : jsval + exn :=
  match service P service_url (request_init input) with
  | NetworkFailure => inr FetchRejected
  | Responded res =>
      if res_ok res then
        match res_body res with
        | None => inr JsonRejected
        | Some data => get_response data
        end
      else inr (JsError (lit "Failed to get chatbot response"))
  end.

(** The calls made before the submission settles: the request, and the
    body read when the status allows it. *)
Definition requested (P : Platform) (input : jsstring) : list Effect :=
  Fetch service_url (request_init input) ::
  match service P service_url (request_init input) with
  | NetworkFailure => []
  | Responded res => if res_ok res then [ResJson res] else []
  end.

Definition apology : jsstring :=
  lit "Sorry, there was an issue processing the request.".

(** What is done after [setResponse(v)] when [v] cannot be converted to a
    string: the running speech is cancelled, the utterance constructor
    throws, and the [catch] block logs. *)
Definition interrupted (v : jsval) : list Effect :=
  [ SynthCancel;
    ConsoleError [LogStr (lit "Error fetching chatbot response:");
                  LogExn (TypeErrorToPrimitive v)] ].

(** The world after a submission that passed validation. *)
Definition submitted (P : Platform) (r : State) (input : jsstring) (w : World)
  : World :=
  match settle P input with
  | inl v =>
      if throws_on_ToString v then
        {| st := with_isLoading false
                   (with_error apology
                      (with_response v
                         (with_error [] (with_isLoading true (st w)))));
           trace := trace w ++ requested P input ++ interrupted v;
           recognitions := recognitions w |}
      else
        {| st := with_isLoading false
                   (with_response v (with_error [] (with_isLoading true (st w))));
           trace := trace w ++ requested P input ++ spoken r v;
           recognitions := recognitions w |}
  | inr e =>
      {| st := with_isLoading false
                 (with_error apology (with_error [] (with_isLoading true (st w))));
         trace := trace w ++ requested P input ++
                  [ConsoleError
                     [LogStr (lit "Error fetching chatbot response:"); LogExn e]];
         recognitions := recognitions w |}
  end.

(** ** Scenarios *)

Module Scenario.

(** A page where recognition is available and the service answers every
    request with status 200 and the body [{"response": "hi there"}]. *)
Definition hi_there : Response :=
  {| res_status := 200;
     res_body := Some (JObj [(lit "response", JStr (lit "hi there"))]) |}.

Definition friendly : Platform :=
  {| recognition_available := true;
     service := fun _ _ => Responded hi_there |}.

(** A page whose service answers every request with status 500 and a body
    that is not JSON. *)
Definition internal_error : Response :=
  {| res_status := 500; res_body := None |}.

Definition failing : Platform :=
  {| recognition_available := true;
     service := fun _ _ => Responded internal_error |}.

(** A browser without speech recognition. *)
Definition deaf : Platform :=
  {| recognition_available := false;
     service := fun _ _ => NetworkFailure |}.

Definition alice : Voice := {| voice_name := lit "Alice"; voice_lang := lit "en-US" |}.
Definition bruno : Voice := {| voice_name := lit "Bruno"; voice_lang := lit "pt-BR" |}.

(** The user typed [hello]. *)
Definition typed_hello : World :=
  run friendly [VoicesChanged [alice; bruno]; ChangeInput (lit "hello")]
    initial_world.

(** An earlier exchange is on display, and the user typed [hello]. *)
Definition after_exchange : World :=
  run friendly
    [VoicesChanged [alice; bruno]; ChangeInput (lit "hey"); Submit;
     ChangeInput (lit "hello")]
    initial_world.

(** The mic was clicked and the recognition reported that it started:
    the component is listening. *)
Definition listening : World :=
  run friendly [ClickMic; FromRecognition 0 Started] initial_world.

(** Listening, then the modal's Cancel button. *)
Definition cancelled : World := step friendly ClickCancel listening.

(** Listening, then a second capture cycle was started. *)
Definition superseded : World :=
  run friendly [ClickMic; FromRecognition 1 Started] listening.

(** The first recognition instance delivers [hello]. *)
Definition late_result : Event := FromRecognition 0 (Result (lit "hello")).

End Scenario.

(** ** What the component renders: the JSX returned by [App] *)

(** The child [{response && <ResponseDisplay .../>}]: the component with
    its two props when [response] is truthy, the falsy value itself
    otherwise. *)
Inductive ResponseSlot : Type :=
| RawChild (v : jsval)
| ResponseDisplay (userInput : jsstring) (response : jsval).

(** One [voice-item] of the voice list. *)
Record VoiceItem : Type := mkVoiceItem {
  item_key : jsstring;        (* key={voice.name} *)
  item_selected : bool;       (* class 'selected' *)
  item_name : jsstring;
  item_lang : jsstring
}.

(** What [App] returns, as far as it depends on the state. *)
Record View : Type := mkView {
  view_loading : bool;                        (* <p>Loading...</p> *)
  view_error : option jsstring;               (* <p className="toast-error"> *)
  view_response : ResponseSlot;
  view_mic_listening : bool;                  (* class 'listening' *)
  view_input_value : jsstring;                (* value={userInput} *)
  view_voices_button : jsstring;              (* label of show-voices-button *)
  view_voice_list : option (list VoiceItem);  (* <div className="voice-list"> *)
  view_modal : bool                           (* <VoiceInputModal> *)
}.

(** [voices.map((voice, index) => ...)], from position [index] on. *)
Fixpoint voice_items (selected index : nat) (vs : list Voice) : list VoiceItem :=
  match vs with
  | [] => []
  | voice :: vs' =>
      {| item_key := voice_name voice;
         item_selected := Nat.eqb selected index;
         item_name := voice_name voice;
         item_lang := voice_lang voice |} :: voice_items selected (S index) vs'
  end.

Section Render.

(** Whether a number, given by its literal, is truthy (neither a zero nor
    NaN): floating point is left to the platform. *)
Variable number_truthy : jsstring -> bool.

(** [ToBoolean] on the values [response] can hold. *)
Definition truthy (v : jsval) : bool :=
  match v with
  | Undefined => false
  | JNull => false
  | JBool b => b
  | JNum literal => number_truthy literal
  | JStr s => negb (JsString.falsy s)
  | JArr _ => true
  | JObj _ => true
  end.

Definition render (s : State) : View :=
  {| view_loading := isLoading s;
     view_error := if JsString.falsy (error s) then None else Some (error s);
     view_response :=
       if truthy (response s)
       then ResponseDisplay (userInput s) (response s)
       else RawChild (response s);
     view_mic_listening := isRecording s;
     view_input_value := userInput s;
     view_voices_button :=
       if showVoices s then lit "Hide Voices" else lit "Show Voices";
     view_voice_list :=
       if showVoices s
       then Some (voice_items (selectedVoice s) 0 (voices s))
       else None;
     view_modal := isModalOpen s |}.

End Render.

(** ** More observations *)

Definition is_click_mic (ev : Event) : bool :=
  match ev with ClickMic => true | _ => false end.

Definition is_res_json (e : Effect) : bool :=
  match e with ResJson _ => true | _ => false end.

(** The synthesis calls of a sequence of [speakResponse] calls: each one
    cancels, then speaks its utterance unless the utterance could not be
    made ([None]). *)
Definition cancel_then_speak (us : list (option Utterance)) : list Effect :=
  flat_map
    (fun u =>
       SynthCancel :: match u with Some u' => [SynthSpeak u'] | None => [] end)
    us.

(** The messages the component ever puts in [error]. *)
Definition error_messages : list jsstring :=
  [ [];
    lit "Please speak a valid input.";
    lit "Sorry, there was an error with speech recognition.";
    lit "Sorry, there was an issue processing the request." ].

(** Bookkeeping of recognition instances, kept by every step. *)
Definition recognition_bookkeeping (w : World) : Prop :=
  filter is_recognition_new (trace w) =
    map RecognitionNew (seq 0 (List.length (recognitions w))) /\
  filter is_recognition_start (trace w) =
    map RecognitionStart (seq 0 (List.length (recognitions w))) /\
  Forall (fun callbacks => callbacks <> None) (recognitions w).

(** ** More scenarios *)

Module Replies.

(** A 2xx reply whose body is the object [{"reply": "hi"}]. *)
Definition other_member : Response :=
  {| res_status := 200;
     res_body := Some (JObj [(lit "reply", JStr (lit "hi"))]) |}.

Definition misnamed : Platform :=
  {| recognition_available := true;
     service := fun _ _ => Responded other_member |}.

(** A 2xx reply whose body is [null]. *)
Definition null_body : Response :=
  {| res_status := 200; res_body := Some JNull |}.

Definition nulling : Platform :=
  {| recognition_available := true;
     service := fun _ _ => Responded null_body |}.

(** A 2xx reply whose [response] member is the empty string. *)
Definition empty_text : Response :=
  {| res_status := 200;
     res_body := Some (JObj [(lit "response", JStr [])]) |}.

Definition silent : Platform :=
  {| recognition_available := true;
     service := fun _ _ => Responded empty_text |}.

(** A 2xx reply whose [response] member is an object with a member named
    [toString]. *)
Definition hidden_toString : Response :=
  {| res_status := 200;
     res_body :=
       Some (JObj [(lit "response", JObj [(lit "toString", JNull)])]) |}.

Definition hiding : Platform :=
  {| recognition_available := true;
     service := fun _ _ => Responded hidden_toString |}.

End Replies.

(** ** Summaries of a whole step *)

(** The state after [handleUserInput input], validation included. *)
Definition handled_state (P : Platform) (input : jsstring) (s : State) : State :=
  if JsString.blank input then with_error (lit "Please speak a valid input.") s
  else
    match settle P input with
    | inl v =>
        if throws_on_ToString v then
          with_isLoading false
            (with_error apology
               (with_response v (with_error [] (with_isLoading true s))))
        else
          with_isLoading false
            (with_response v (with_error [] (with_isLoading true s)))
    | inr _ =>
        with_isLoading false
          (with_error apology (with_error [] (with_isLoading true s)))
    end.

(** The platform calls of [handleUserInput input], validation included. *)
Definition handled_effects (P : Platform) (r : State) (input : jsstring)
  : list Effect :=
  if JsString.blank input then []
  else
    requested P input ++
    match settle P input with
    | inl v => if throws_on_ToString v then interrupted v else spoken r v
    | inr e =>
        [ConsoleError
           [LogStr (lit "Error fetching chatbot response:"); LogExn e]]
    end.

(** The three flags [resetRecording] lowers. *)
Definition reset_flags (s : State) : State :=
  with_isModalOpen false (with_isRecording false (with_isLoading false s)).

Definition step_state (P : Platform) (ev : Event) (w : World) : State :=
  let s := st w in
  match ev with
  | ClickMic => s
  | ClickCancel => with_isModalOpen false s
  | ChangeInput value => with_userInput value s
  | Submit => handled_state P (userInput s) s
  | ClickVoice index => with_selectedVoice index s
  | ToggleVoices => with_showVoices (negb (showVoices s)) s
  | VoicesChanged availableVoices => with_voices availableVoices s
  | FromRecognition id ev' =>
      match nth_error (recognitions w) id with
      | Some (Some r) =>
          match ev' with
          | Started =>
              with_isModalOpen true (with_isRecording true (with_isLoading true s))
          | Result t =>
              with_isModalOpen false (handled_state P t (with_userInput t s))
          | Failed _ =>
              reset_flags
                (with_error
                   (lit "Sorry, there was an error with speech recognition.") s)
          | Ended => reset_flags s
          end
      | _ => s
      end
  end.

Definition step_effects (P : Platform) (ev : Event) (w : World) : list Effect :=
  match ev with
  | ClickMic =>
      if recognition_available P then
        let id := List.length (recognitions w) in
        [RecognitionNew id;
         RecognitionConfigure id (lit "en-US") false 1;
         RecognitionStart id]
      else [Alert (lit "Speech Recognition is not supported in this browser.")]
  | Submit => handled_effects P (st w) (userInput (st w))
  | FromRecognition id ev' =>
      match nth_error (recognitions w) id with
      | Some (Some r) =>
          match ev' with
          | Started => [ConsoleLog [LogStr (lit "Speech recognition started")]]
          | Result t =>
              ConsoleLog [LogStr (lit "User Input:"); LogVal (JStr t)]
              :: handled_effects P r t
          | Failed code =>
              [ConsoleError
                 [LogStr (lit "Speech recognition error"); LogVal (JStr code)];
               ConsoleLog [LogStr (lit "Speech recognition ended")]]
          | Ended => [ConsoleLog [LogStr (lit "Speech recognition ended")]]
          end
      | _ => []
      end
  | _ => []
  end.

Definition step_recognitions (P : Platform) (ev : Event) (w : World)
  : list (option State) :=
  match ev with
  | ClickMic =>
      if recognition_available P
      then recognitions w ++ [Some (st w)]
      else recognitions w
  | _ => recognitions w
  end.

(** * Properties *)

(** ** [trim] and blank strings *)

Section Trim.

Import JsString.

Lemma trim_start_nil_iff (s : jsstring) :
  trim_start s = [] <-> blank s = true.
Proof.
  induction s as [|c s IH]; simpl.
  - tauto.
  - destruct (is_white_space c) eqn:Hc; simpl.
    + exact IH.
    + split; discriminate.
Qed.

Lemma trim_start_head (s : jsstring) (c : code_unit) (s' : jsstring) :
  trim_start s = c :: s' -> is_white_space c = false.
Proof.
  induction s as [|d s IH]; simpl.
  - discriminate.
  - destruct (is_white_space d) eqn:Hd.
    + exact IH.
    + intros H. injection H as -> _. exact Hd.
Qed.

Lemma blank_app (s1 s2 : jsstring) :
  blank (s1 ++ s2) = blank s1 && blank s2.
Proof. apply forallb_app. Qed.

Lemma blank_rev (s : jsstring) : blank (rev s) = blank s.
Proof.
  induction s as [|c s IH]; simpl.
  - reflexivity.
  - rewrite blank_app, IH. simpl. rewrite andb_true_r. apply andb_comm.
Qed.

Lemma trim_nil_iff (s : jsstring) : trim s = [] <-> blank s = true.
Proof.
  unfold trim, trim_end. split.
  - intros H.
    apply (f_equal (@rev code_unit)) in H. rewrite rev_involutive in H.
    simpl in H. apply trim_start_nil_iff in H. rewrite blank_rev in H.
    destruct (trim_start s) as [|c s'] eqn:Hs.
    + now apply trim_start_nil_iff.
    + apply trim_start_head in Hs. simpl in H. rewrite Hs in H. discriminate.
  - intros H. apply trim_start_nil_iff in H. rewrite H. reflexivity.
Qed.

(** The test [!input.trim()] succeeds exactly on blank strings. *)
Lemma falsy_trim (s : jsstring) : falsy (trim s) = blank s.
Proof.
  destruct (blank s) eqn:Hb.
  - apply trim_nil_iff in Hb. rewrite Hb. reflexivity.
  - destruct (trim s) eqn:Ht.
    + apply trim_nil_iff in Ht. congruence.
    + reflexivity.
Qed.

End Trim.

(** ** Observations and appended traces *)

Lemma fetches_app (t1 t2 : list Effect) :
  fetches (t1 ++ t2) = fetches t1 ++ fetches t2.
Proof. apply filter_app. Qed.

Lemma synth_calls_app (t1 t2 : list Effect) :
  synth_calls (t1 ++ t2) = synth_calls t1 ++ synth_calls t2.
Proof. apply filter_app. Qed.

Lemma start_calls_app (t1 t2 : list Effect) :
  start_calls (t1 ++ t2) = start_calls t1 + start_calls t2.
Proof. unfold start_calls. now rewrite filter_app, length_app. Qed.

Lemma new_calls_app (t1 t2 : list Effect) :
  new_calls (t1 ++ t2) = new_calls t1 + new_calls t2.
Proof. unfold new_calls. now rewrite filter_app, length_app. Qed.

(** ** [speakResponse] *)

Lemma speakResponse_run (r : State) (text : jsval) (w : World) :
  speakResponse r text w =
  if throws_on_ToString text then
    (inr (TypeErrorToPrimitive text),
     {| st := st w; trace := trace w ++ [SynthCancel];
        recognitions := recognitions w |})
  else
    (inl tt, {| st := st w; trace := trace w ++ spoken r text;
                recognitions := recognitions w |}).
Proof.
  unfold speakResponse, new_SpeechSynthesisUtterance, animateMessageSent,
    ToString, bind, perform, ret, throw, spoken.
  destruct (throws_on_ToString text) eqn:Ht; destruct text;
    try discriminate Ht; cbn [fst snd st trace recognitions utt_text];
    repeat rewrite <- app_assoc; reflexivity.
Qed.

(** A text that converts is spoken. *)
Lemma speakResponse_spoken (r : State) (text : jsval) (w : World) :
  throws_on_ToString text = false ->
  speakResponse r text w =
  (inl tt, {| st := st w; trace := trace w ++ spoken r text;
              recognitions := recognitions w |}).
Proof. intros Ht. now rewrite speakResponse_run, Ht. Qed.

(** ** [handleUserInput], path by path *)

Lemma handleUserInput_blank_run (P : Platform) (r : State) (input : jsstring)
  (w : World) :
  JsString.blank input = true ->
  handleUserInput P r input w =
  (inl tt, {| st := with_error (lit "Please speak a valid input.") (st w);
              trace := trace w; recognitions := recognitions w |}).
Proof.
  intros Hb. unfold handleUserInput. rewrite falsy_trim, Hb.
  reflexivity.
Qed.

Lemma handleUserInput_submitted (P : Platform) (r : State) (input : jsstring)
  (w : World) :
  JsString.blank input = false ->
  handleUserInput P r input w = (inl tt, submitted P r input w).
Proof.
  intros Hb. unfold handleUserInput. rewrite falsy_trim, Hb.
  unfold submitted, settle, requested, try_catch_finally, fetch, res_json,
    bind, perform, setIsLoading, setError, setResponse, set_state, eval,
    ret, throw.
  cbn -[with_isLoading with_error with_response service_url request_init
        speakResponse spoken apology JsString.lit throws_on_ToString].
  destruct (service P service_url (request_init input)) as [|res];
    cbn -[with_isLoading with_error with_response service_url request_init
          speakResponse spoken apology JsString.lit throws_on_ToString].
  - repeat rewrite <- app_assoc. reflexivity.
  - destruct (res_ok res);
      cbn -[with_isLoading with_error with_response service_url request_init
            speakResponse spoken apology JsString.lit throws_on_ToString].
    + destruct (res_body res) as [data|];
        cbn -[with_isLoading with_error with_response service_url request_init
              speakResponse spoken apology JsString.lit throws_on_ToString].
      * destruct (get_response data) as [v|e];
          cbn -[with_isLoading with_error with_response service_url
                request_init speakResponse spoken apology JsString.lit
                throws_on_ToString].
        -- rewrite speakResponse_run.
           destruct (throws_on_ToString v);
             cbn -[with_isLoading with_error with_response service_url
                   request_init spoken interrupted apology JsString.lit];
             repeat rewrite <- app_assoc; reflexivity.
        -- repeat rewrite <- app_assoc. reflexivity.
      * repeat rewrite <- app_assoc. reflexivity.
    + repeat rewrite <- app_assoc. reflexivity.
Qed.

Lemma synth_calls_requested (P : Platform) (input : jsstring) :
  synth_calls (requested P input) = [].
Proof.
  unfold requested.
  destruct (service P service_url (request_init input)) as [|res];
    [reflexivity|]. now destruct (res_ok res).
Qed.

Lemma fetches_requested (P : Platform) (input : jsstring) :
  fetches (requested P input) = [Fetch service_url (request_init input)].
Proof.
  unfold requested.
  destruct (service P service_url (request_init input)) as [|res];
    [reflexivity|]. now destruct (res_ok res).
Qed.

(** The network calls of a submission that passed validation: one. *)
Lemma fetches_submitted (P : Platform) (r : State) (input : jsstring)
  (w : World) :
  fetches (trace (submitted P r input w)) =
  fetches (trace w) ++ [Fetch service_url (request_init input)].
Proof.
  unfold submitted.
  destruct (settle P input) as [v|e];
    [destruct (throws_on_ToString v)|]; cbn [trace];
    rewrite !fetches_app, fetches_requested; reflexivity.
Qed.

(** The cells a submission never writes. *)
Lemma submitted_frame (P : Platform) (r : State) (input : jsstring)
  (w : World) :
  let s' := st (submitted P r input w) in
  userInput s' = userInput (st w) /\
  selectedVoice s' = selectedVoice (st w) /\
  isRecording s' = isRecording (st w) /\
  voices s' = voices (st w) /\
  showVoices s' = showVoices (st w) /\
  isModalOpen s' = isModalOpen (st w) /\
  recognitions (submitted P r input w) = recognitions w.
Proof.
  unfold submitted.
  destruct (settle P input) as [v|e];
    [destruct (throws_on_ToString v)|]; simpl; repeat split.
Qed.

(** [handleUserInput] never rejects. *)
Lemma handleUserInput_returns (P : Platform) (r : State) (input : jsstring)
  (w : World) :
  fst (handleUserInput P r input w) = inl tt.
Proof.
  destruct (JsString.blank input) eqn:Hb.
  - now rewrite handleUserInput_blank_run.
  - now rewrite handleUserInput_submitted.
Qed.

(** ** Submitting text *)

(** C1. For every input all of whose code units are white space (the empty
    string included: the strings that [trim] empties), [handleUserInput]
    returns after setting [error] to the message
    'Please speak a valid input.': no other cell changes, the trace is
    left as it was, so [fetch] is not called. *)
Theorem blank_input_sets_error_without_fetch
  (P : Platform) (r : State) (input : jsstring) (w : World) :
  JsString.blank input = true ->
  JsString.trim input = [] /\
  handleUserInput P r input w =
    (inl tt, {| st := with_error (lit "Please speak a valid input.") (st w);
                trace := trace w;
                recognitions := recognitions w |}) /\
  error (st (snd (handleUserInput P r input w))) =
    lit "Please speak a valid input." /\
  fetches (trace (snd (handleUserInput P r input w))) = fetches (trace w).
Proof.
  intros Hb. split; [now apply trim_nil_iff|].
  rewrite (handleUserInput_blank_run P r input w Hb). repeat split.
Qed.

Lemma blank_input_sets_error_without_fetch_witness :
  JsString.blank (lit "  ") = true /\
  error (st (snd (handleUserInput Scenario.friendly initial_state (lit "  ")
                    initial_world))) = lit "Please speak a valid input." /\
  fetches (trace (snd (handleUserInput Scenario.friendly initial_state
                         (lit "  ") initial_world))) = [].
Proof.
  split; [reflexivity|].
  apply (blank_input_sets_error_without_fetch
           Scenario.friendly initial_state (lit "  ") initial_world).
  reflexivity.
Defined.

(** A reply [{"response": rv}] with a 2xx status, [rv] a string. *)
Lemma handleUserInput_answered
  (P : Platform) (r : State) (input : jsstring) (w : World)
  (res : Response) (rv : jsstring) :
  JsString.blank input = false ->
  service P service_url (request_init input) = Responded res ->
  res_ok res = true ->
  res_body res = Some (JObj [(lit "response", JStr rv)]) ->
  handleUserInput P r input w =
  (inl tt,
   {| st := with_isLoading false
              (with_response (JStr rv)
                 (with_error [] (with_isLoading true (st w))));
      trace := trace w ++
               [Fetch service_url (request_init input); ResJson res] ++
               spoken r (JStr rv);
      recognitions := recognitions w |}).
Proof.
  intros Hb Hs Hok Hbody.
  rewrite (handleUserInput_submitted P r input w Hb).
  assert (Hsettle : settle P input = inl (JStr rv)).
  { unfold settle. rewrite Hs, Hok, Hbody. reflexivity. }
  assert (Hreq : requested P input =
                 [Fetch service_url (request_init input); ResJson res]).
  { unfold requested. now rewrite Hs, Hok. }
  unfold submitted. now rewrite Hsettle, Hreq.
Qed.


(** C5. For every input that is not blank, when the service answers with a
    status outside 200-299 (500, say), [handleUserInput] sets [error] to
    'Sorry, there was an issue processing the request.' and leaves
    [response] as it was; the speech synthesis is not called and the
    loading flag is down. *)
Theorem non_2xx_sets_error_and_keeps_response
  (P : Platform) (r : State) (input : jsstring) (w : World) (res : Response) :
  JsString.blank input = false ->
  service P service_url (request_init input) = Responded res ->
  res_ok res = false ->
  let w' := snd (handleUserInput P r input w) in
  fst (handleUserInput P r input w) = inl tt /\
  error (st w') = lit "Sorry, there was an issue processing the request." /\
  response (st w') = response (st w) /\
  synth_calls (trace w') = synth_calls (trace w) /\
  isLoading (st w') = false.
Proof.
  intros Hb Hs Hok w'. subst w'.
  rewrite (handleUserInput_submitted P r input w Hb).
  assert (Hsettle : settle P input =
                    inr (JsError (lit "Failed to get chatbot response"))).
  { unfold settle. rewrite Hs, Hok. reflexivity. }
  unfold submitted. rewrite Hsettle. cbn [fst snd st trace].
  repeat split.
  rewrite !synth_calls_app, synth_calls_requested. cbn. now rewrite app_nil_r.
Qed.

Lemma non_2xx_sets_error_and_keeps_response_witness :
  let w := Scenario.after_exchange in
  let w' := snd (handleUserInput Scenario.failing (st w) (lit "hello") w) in
  response (st w) = JStr (lit "hi there") /\
  res_status Scenario.internal_error = 500%N /\
  error (st w') = lit "Sorry, there was an issue processing the request." /\
  response (st w') = JStr (lit "hi there").
Proof.
  pose proof (@non_2xx_sets_error_and_keeps_response
                Scenario.failing (st Scenario.after_exchange) (lit "hello")
                Scenario.after_exchange Scenario.internal_error
                eq_refl eq_refl eq_refl) as H.
  cbv zeta in H. destruct H as (_ & Herr & Hresp & _).
  cbv zeta. split; [reflexivity|]. split; [reflexivity|].
  split; [exact Herr | exact Hresp].
Defined.




(** C7. A submission that passed validation makes exactly one network call,
    whatever its outcome: a [POST] to 'http://127.0.0.1:5000' with the
    header [Content-Type: application/json] and the body
    [JSON.stringify({text: input})].  A status outside 200-299 or a body
    that is not JSON ends in the error message, with [response] untouched
    (and no second call); a 2xx reply with the JSON body
    [{"response": rv}], [rv] a string, has [rv] stored and the error
    cleared. *)
Theorem one_post_request_per_submission
  (P : Platform) (r : State) (input : jsstring) (w : World) :
  JsString.blank input = false ->
  let w' := snd (handleUserInput P r input w) in
  fetches (trace w') =
    fetches (trace w) ++
    [Fetch (lit "http://127.0.0.1:5000")
       {| req_method := lit "POST";
          req_headers := [(lit "Content-Type", lit "application/json")];
          req_body_json := JObj [(lit "text", JStr input)] |}] /\
  (forall res : Response,
     service P service_url (request_init input) = Responded res ->
     res_ok res = false \/ res_body res = None ->
     error (st w') = lit "Sorry, there was an issue processing the request." /\
     response (st w') = response (st w)) /\
  (forall (res : Response) (rv : jsstring),
     service P service_url (request_init input) = Responded res ->
     res_ok res = true ->
     res_body res = Some (JObj [(lit "response", JStr rv)]) ->
     response (st w') = JStr rv /\ error (st w') = []).
Proof.
  intros Hb w'. subst w'. split; [|split].
  - rewrite (handleUserInput_submitted P r input w Hb). cbn [snd].
    apply fetches_submitted.
  - intros res Hs Hbad.
    rewrite (handleUserInput_submitted P r input w Hb). cbn [snd].
    assert (Hsettle : exists e, settle P input = inr e).
    { unfold settle. rewrite Hs. destruct (res_ok res) eqn:Hok.
      - destruct Hbad as [Hbad|Hbad]; [discriminate|].
        rewrite Hbad. now eexists.
      - now eexists. }
    destruct Hsettle as [e He]. unfold submitted. rewrite He.
    split; reflexivity.
  - intros res rv Hs Hok Hbody.
    rewrite (handleUserInput_answered P r input w res rv Hb Hs Hok Hbody).
    split; reflexivity.
Qed.

Lemma one_post_request_per_submission_witness :
  let w := Scenario.typed_hello in
  let w' := snd (handleUserInput Scenario.friendly (st w) (lit "hello") w) in
  fetches (trace w')
  = [Fetch (lit "http://127.0.0.1:5000")
       {| req_method := lit "POST";
          req_headers := [(lit "Content-Type", lit "application/json")];
          req_body_json := JObj [(lit "text", JStr (lit "hello"))] |}] /\
  response (st w') = JStr (lit "hi there").
Proof.
  pose proof (@one_post_request_per_submission
                Scenario.friendly (st Scenario.typed_hello) (lit "hello")
                Scenario.typed_hello eq_refl) as H.
  cbv zeta in H. destruct H as (Hfetch & _ & Hok).
  cbv zeta. split; [exact Hfetch|].
  exact (proj1 (Hok Scenario.hi_there (lit "hi there")
                  eq_refl eq_refl eq_refl)).
Defined.


(** ** Starting a capture cycle *)

Lemma startSpeechRecognition_available_run (P : Platform) (r : State)
  (w : World) :
  recognition_available P = true ->
  startSpeechRecognition P r w =
  (inl tt,
   let id := List.length (recognitions w) in
   {| st := st w;
      trace := trace w ++
               [RecognitionNew id;
                RecognitionConfigure id (lit "en-US") false 1;
                RecognitionStart id];
      recognitions := list_set (recognitions w ++ [None]) id (Some r) |}).
Proof.
  intros Ha. unfold startSpeechRecognition. rewrite Ha.
  unfold bind, new_SpeechRecognition, perform, install_callbacks.
  cbn -[JsString.lit]. repeat rewrite <- app_assoc. reflexivity.
Qed.

Lemma length_list_set {A : Type} (l : list A) (i : nat) (x : A) :
  List.length (list_set l i x) = List.length l.
Proof.
  revert i. induction l as [|y l IH]; intros [|i]; simpl; auto.
Qed.

Lemma list_set_last {A : Type} (l : list A) (y x : A) :
  list_set (l ++ [y]) (List.length l) x = l ++ [x].
Proof. induction l as [|z l IH]; simpl; [reflexivity | now rewrite IH]. Qed.

(** C3, as the code has it.  [startSpeechRecognition] has no guard on a
    capture cycle being active.  When recognition is available, every call,
    in every state (listening or not), constructs one new recognition
    instance and calls [start()] on it once, and leaves the state cells as
    they are; two calls in a row make two [start()] calls. *)
Theorem startCapture_starts_a_new_instance_each_call
  (P : Platform) (r r2 : State) (w : World) :
  recognition_available P = true ->
  let w1 := snd (startSpeechRecognition P r w) in
  let w2 := snd (startSpeechRecognition P r2 w1) in
  st w1 = st w /\
  new_calls (trace w1) = S (new_calls (trace w)) /\
  start_calls (trace w1) = S (start_calls (trace w)) /\
  recognitions w1 = recognitions w ++ [Some r] /\
  start_calls (trace w2) = S (S (start_calls (trace w))) /\
  recognitions w2 = recognitions w ++ [Some r; Some r2].
Proof.
  intros Ha w1 w2.
  assert (H1 : w1 = {| st := st w;
                       trace := trace w ++
                         [RecognitionNew (List.length (recognitions w));
                          RecognitionConfigure (List.length (recognitions w))
                            (lit "en-US") false 1;
                          RecognitionStart (List.length (recognitions w))];
                       recognitions := recognitions w ++ [Some r] |}).
  { subst w1. rewrite (startSpeechRecognition_available_run P r w Ha).
    cbn [snd]. now rewrite list_set_last. }
  assert (H2 : start_calls (trace w2) = S (start_calls (trace w1)) /\
               recognitions w2 = recognitions w1 ++ [Some r2]).
  { subst w2. rewrite (startSpeechRecognition_available_run P r2 w1 Ha).
    cbn [snd trace recognitions]. rewrite list_set_last, start_calls_app.
    cbn. split; [lia | reflexivity]. }
  destruct H2 as [H2 H3]. rewrite H2, H3. rewrite H1. cbn [st trace recognitions].
  rewrite start_calls_app, new_calls_app. cbn.
  repeat split; try lia. now rewrite <- app_assoc.
Qed.

Lemma startCapture_starts_a_new_instance_each_call_witness :
  isRecording (st Scenario.listening) = true /\
  start_calls (trace Scenario.listening) = 1 /\
  start_calls
    (trace (snd (startSpeechRecognition Scenario.friendly
                   (st Scenario.listening) Scenario.listening))) = 2.
Proof.
  split; [reflexivity|]. split; [reflexivity|].
  pose proof (@startCapture_starts_a_new_instance_each_call
                Scenario.friendly (st Scenario.listening)
                (st Scenario.listening) Scenario.listening eq_refl) as H.
  cbv zeta in H. destruct H as (_ & _ & Hstart & _). exact Hstart.
Defined.

(** C3 as stated fails: while the component is listening, a second click on
    the microphone is not a no-op, and the two clicks have made two
    [start()] calls, not one. *)
Lemma startCapture_is_not_idempotent :
  isRecording (st Scenario.listening) = true /\
  step Scenario.friendly ClickMic Scenario.listening <> Scenario.listening /\
  start_calls
    (trace (run Scenario.friendly [ClickMic; FromRecognition 0 Started; ClickMic]
              initial_world)) = 2 /\
  start_calls
    (trace (run Scenario.friendly [ClickMic; FromRecognition 0 Started; ClickMic]
              initial_world)) <> 1.
Proof.
  split; [reflexivity|]. split.
  - intros H. apply (f_equal (fun w => start_calls (trace w))) in H.
    vm_compute in H. discriminate.
  - split; [reflexivity|]. vm_compute. discriminate.
Qed.

(** C8. When the platform has no speech recognition,
    [startSpeechRecognition] raises the alert
    'Speech Recognition is not supported in this browser.' and returns:
    that alert is its only effect, so no recognition instance is
    constructed or started, no state cell changes, and nothing is
    thrown. *)
Theorem unavailable_recognition_alerts_and_returns
  (P : Platform) (r : State) (w : World) :
  recognition_available P = false ->
  let w' := snd (startSpeechRecognition P r w) in
  fst (startSpeechRecognition P r w) = inl tt /\
  trace w' =
    trace w ++ [Alert (lit "Speech Recognition is not supported in this browser.")] /\
  new_calls (trace w') = new_calls (trace w) /\
  start_calls (trace w') = start_calls (trace w) /\
  recognitions w' = recognitions w /\
  st w' = st w.
Proof.
  intros Ha w'. subst w'. unfold startSpeechRecognition. rewrite Ha.
  unfold perform. cbn [negb fst snd trace st recognitions].
  rewrite new_calls_app, start_calls_app. cbn.
  repeat split; lia.
Qed.

Lemma unavailable_recognition_alerts_and_returns_witness :
  let w' := step Scenario.deaf ClickMic initial_world in
  trace w' =
    [Alert (lit "Speech Recognition is not supported in this browser.")] /\
  new_calls (trace w') = 0 /\ start_calls (trace w') = 0 /\
  st w' = initial_state.
Proof.
  pose proof (@unavailable_recognition_alerts_and_returns
                Scenario.deaf (st initial_world) initial_world eq_refl) as H.
  cbv zeta in H. destruct H as (_ & Ht & Hn & Hs & _ & Hst).
  cbv zeta. repeat split; assumption.
Defined.

(** ** Callbacks of a capture cycle *)

Lemma recognition_onresult_run (P : Platform) (r : State) (t : jsstring)
  (w : World) :
  let w0 := {| st := with_userInput t (st w);
               trace := trace w ++
                        [ConsoleLog [LogStr (lit "User Input:"); LogVal (JStr t)]];
               recognitions := recognitions w |} in
  let w1 := snd (handleUserInput P r t w0) in
  recognition_onresult P r t w =
  (inl tt, {| st := with_isModalOpen false (st w1); trace := trace w1;
              recognitions := recognitions w1 |}).
Proof.
  intros w0 w1. unfold recognition_onresult, bind.
  unfold perform at 1. unfold setUserInput, set_state at 1.
  cbn [st trace recognitions]. fold w0.
  pose proof (handleUserInput_returns P r t w0) as Hret.
  subst w1. destruct (handleUserInput P r t w0) as [res w1].
  cbn [fst] in Hret. subst res. reflexivity.
Qed.

(** C4, as the code has it.  The state holds no generation counter and no
    callback is filtered.  A result delivered by ANY recognition instance
    whose callbacks are installed (the world may hold newer instances, and
    the modal may have been cancelled) stores its transcript in
    [userInput], closes the modal and submits the transcript: one request
    when it is not blank, the message 'Please speak a valid input.' when it
    is. *)
Theorem capture_result_is_applied_whatever_the_cycle
  (P : Platform) (w : World) (id : nat) (r : State) (t : jsstring) :
  nth_error (recognitions w) id = Some (Some r) ->
  let w' := step P (FromRecognition id (Result t)) w in
  userInput (st w') = t /\
  isModalOpen (st w') = false /\
  (JsString.blank t = false ->
   fetches (trace w') =
     fetches (trace w) ++ [Fetch service_url (request_init t)]) /\
  (JsString.blank t = true ->
   error (st w') = lit "Please speak a valid input." /\
   fetches (trace w') = fetches (trace w)).
Proof.
  intros Hid w'. subst w'. unfold step, handler, recognition_callback.
  rewrite Hid. rewrite recognition_onresult_run. cbn [snd st trace].
  set (w0 := {| st := with_userInput t (st w);
                trace := trace w ++
                         [ConsoleLog [LogStr (lit "User Input:"); LogVal (JStr t)]];
                recognitions := recognitions w |}).
  assert (Hf0 : fetches (trace w0) = fetches (trace w)).
  { subst w0. cbn [trace]. rewrite fetches_app. cbn. apply app_nil_r. }
  destruct (JsString.blank t) eqn:Hb.
  - rewrite (handleUserInput_blank_run P r t w0 Hb). cbn [snd st trace].
    repeat split; try discriminate. exact Hf0.
  - rewrite (handleUserInput_submitted P r t w0 Hb). cbn [snd].
    destruct (submitted_frame P r t w0) as (Hu & _).
    split; [exact Hu|]. split; [reflexivity|]. split; [|discriminate].
    intros _. now rewrite fetches_submitted, Hf0.
Qed.

Lemma capture_result_is_applied_whatever_the_cycle_witness :
  let w' := step Scenario.friendly Scenario.late_result Scenario.superseded in
  List.length (recognitions Scenario.superseded) = 2 /\
  userInput (st w') = lit "hello" /\
  fetches (trace w') = [Fetch service_url (request_init (lit "hello"))].
Proof.
  pose proof (@capture_result_is_applied_whatever_the_cycle
                Scenario.friendly Scenario.superseded 0 initial_state
                (lit "hello") eq_refl) as H.
  cbv zeta in H. destruct H as (Hu & _ & Hf & _).
  cbv zeta. split; [reflexivity|]. split; [exact Hu | exact (Hf eq_refl)].
Defined.

(** C4 as stated fails: a result of the first capture cycle that arrives
    after Cancel, or after a second cycle was started, is not discarded: it
    changes the state (the input, the response) and sends a request. *)
Lemma stale_capture_result_mutates_state :
  st (step Scenario.friendly Scenario.late_result Scenario.cancelled)
    <> st Scenario.cancelled /\
  st (step Scenario.friendly Scenario.late_result Scenario.superseded)
    <> st Scenario.superseded /\
  userInput (st Scenario.cancelled) = [] /\
  userInput (st (step Scenario.friendly Scenario.late_result Scenario.cancelled))
    = lit "hello" /\
  response (st (step Scenario.friendly Scenario.late_result Scenario.cancelled))
    = JStr (lit "hi there") /\
  fetches (trace (step Scenario.friendly Scenario.late_result Scenario.cancelled))
    = [Fetch service_url (request_init (lit "hello"))].
Proof.
  split; [|split].
  - intros H. apply (f_equal userInput) in H. vm_compute in H. discriminate.
  - intros H. apply (f_equal userInput) in H. vm_compute in H. discriminate.
  - repeat split.
Qed.

(** ** Speaking with a selection that is out of range *)

(** C10. [speakResponse] has no bounds guard.  With an empty catalog, or a
    selected index past its end, [voices[selectedVoice]] is absent: the
    utterance is given no voice, the running speech is still cancelled,
    [speak] is still called, and the call returns normally.  This is so for
    every text that [ToString] converts: every string, number, boolean,
    [null] and [undefined], and every object or array that hides no
    [toString].  For the other texts the utterance cannot be made, whatever
    the selection: whether the call throws never depends on [voices] or
    [selectedVoice]. *)
Theorem speakResponse_out_of_range
  (r : State) (text : jsval) (w : World) :
  List.length (voices r) <= selectedVoice r ->
  throws_on_ToString text = false ->
  speakResponse r text w =
  (inl tt,
   {| st := st w;
      trace := trace w ++
               [SynthCancel;
                SynthSpeak {| utt_text := text; utt_voice := None |};
                ConsoleLog [LogStr (lit "Auditory feedback: Response spoken.")];
                ConsoleLog [LogTemplate (lit "Visual feedback: ") text
                              (lit " sent.")]];
      recognitions := recognitions w |}) /\
  (forall (r' : State) (text' : jsval),
     fst (speakResponse r text' w) = fst (speakResponse r' text' w)).
Proof.
  intros Hout Htext. split.
  - rewrite (speakResponse_spoken r text w Htext).
    unfold spoken. apply nth_error_None in Hout. now rewrite Hout.
  - intros r' text'. rewrite !speakResponse_run.
    now destruct (throws_on_ToString text').
Qed.

Lemma speakResponse_out_of_range_witness :
  voices initial_state = [] /\
  synth_calls
    (trace (snd (speakResponse initial_state (JStr (lit "hi there"))
                   initial_world))) =
  [SynthCancel;
   SynthSpeak {| utt_text := JStr (lit "hi there"); utt_voice := None |}].
Proof.
  split; [reflexivity|].
  rewrite (proj1 (@speakResponse_out_of_range initial_state
                    (JStr (lit "hi there")) initial_world (le_n 0) eq_refl)).
  reflexivity.
Defined.

(** * The component as a whole *)

(** ** Every step, in summary form *)

Lemma handleUserInput_run (P : Platform) (r : State) (input : jsstring)
  (w : World) :
  handleUserInput P r input w =
  (inl tt, {| st := handled_state P input (st w);
              trace := trace w ++ handled_effects P r input;
              recognitions := recognitions w |}).
Proof.
  unfold handled_state, handled_effects.
  destruct (JsString.blank input) eqn:Hb.
  - rewrite (handleUserInput_blank_run P r input w Hb).
    now rewrite app_nil_r.
  - rewrite (handleUserInput_submitted P r input w Hb). unfold submitted.
    destruct (settle P input) as [v|e];
      [destruct (throws_on_ToString v)|]; reflexivity.
Qed.

Lemma step_run (P : Platform) (ev : Event) (w : World) :
  step P ev w =
  {| st := step_state P ev w;
     trace := trace w ++ step_effects P ev w;
     recognitions := step_recognitions P ev w |}.
Proof.
  unfold step, handler, step_state, step_effects, step_recognitions.
  destruct ev as [ | | value | | index | | availableVoices | id ev' ];
    try (destruct w; cbn; now rewrite app_nil_r).
  - (* ClickMic *)
    destruct (recognition_available P) eqn:Ha.
    + rewrite (startSpeechRecognition_available_run P (st w) w Ha).
      cbn [snd]. now rewrite list_set_last.
    + unfold startSpeechRecognition. rewrite Ha. reflexivity.
  - (* Submit *)
    now rewrite handleUserInput_run.
  - (* FromRecognition *)
    unfold recognition_callback.
    destruct (nth_error (recognitions w) id) as [[r|]|];
      try (destruct w; cbn; now rewrite app_nil_r).
    destruct ev' as [ | t | code | ].
    + unfold recognition_onstart, bind, perform, setIsLoading, setIsRecording,
        setIsModalOpen, set_state. reflexivity.
    + rewrite recognition_onresult_run, handleUserInput_run.
      cbn [snd st trace recognitions]. now rewrite <- app_assoc.
    + unfold recognition_onerror, resetRecording, bind, perform, setError,
        setIsLoading, setIsRecording, setIsModalOpen, set_state.
      cbn -[JsString.lit]. now rewrite <- app_assoc.
    + unfold recognition_onend, resetRecording, bind, perform,
        setIsLoading, setIsRecording, setIsModalOpen, set_state. reflexivity.
Qed.

Lemma run_snoc (P : Platform) (evs : list Event) (ev : Event) (w : World) :
  run P (evs ++ [ev]) w = step P ev (run P evs w).
Proof. unfold run. now rewrite fold_left_app. Qed.

(** A property kept by every step holds along every run. *)
Lemma run_invariant (P : Platform) (Inv : World -> Prop) :
  (forall ev w, Inv w -> Inv (step P ev w)) ->
  forall evs w, Inv w -> Inv (run P evs w).
Proof.
  intros Hstep evs. induction evs as [|ev evs IH]; intros w Hw.
  - exact Hw.
  - cbn. apply IH, Hstep, Hw.
Qed.

(** ** What [handleUserInput] adds to a trace, by kind of call *)

Ltac handled_cases P input :=
  unfold handled_effects, handled_state, settle, requested, spoken, interrupted;
  destruct (JsString.blank input);
  [ | destruct (service P service_url (request_init input)) as [|res];
      [ | destruct (res_ok res);
          [ destruct (res_body res) as [data|];
            [ destruct (get_response data) as [v|e];
              [ destruct (throws_on_ToString v) | ] | ] | ] ] ].

Lemma handled_effects_no_recognition (P : Platform) (r : State)
  (input : jsstring) :
  filter is_recognition_start (handled_effects P r input) = [] /\
  filter is_recognition_new (handled_effects P r input) = [].
Proof. handled_cases P input; split; reflexivity. Qed.

Lemma handled_effects_synth (P : Platform) (r : State) (input : jsstring) :
  exists us : list (option Utterance),
    synth_calls (handled_effects P r input) = cancel_then_speak us /\
    List.length us <= List.length (fetches (handled_effects P r input)).
Proof.
  handled_cases P input;
    first
      [ exists []; split; [reflexivity | cbn; lia]
      | exists [None]; split; [reflexivity | cbn; lia]
      | exists [Some {| utt_text := v;
                        utt_voice := nth_error (voices r) (selectedVoice r) |}];
        split; [reflexivity | cbn; lia] ].
Qed.

Lemma handled_state_flags (P : Platform) (input : jsstring) (s : State) :
  isRecording (handled_state P input s) = isRecording s /\
  isModalOpen (handled_state P input s) = isModalOpen s /\
  userInput (handled_state P input s) = userInput s /\
  selectedVoice (handled_state P input s) = selectedVoice s /\
  voices (handled_state P input s) = voices s /\
  showVoices (handled_state P input s) = showVoices s.
Proof. handled_cases P input; repeat split. Qed.

Lemma handled_state_error (P : Platform) (input : jsstring) (s : State) :
  In (error (handled_state P input s)) error_messages \/
  error (handled_state P input s) = error s.
Proof.
  handled_cases P input; left; unfold error_messages; cbn [error with_error
    with_isLoading with_response In]; tauto.
Qed.

(** ** Invariants of every run *)

(** X1. Whatever the events and the service do, [error] never holds
    anything but the empty string or one of the three messages of
    [App.jsx]. *)
Theorem error_is_always_a_known_message (P : Platform) (evs : list Event) :
  let e := error (st (run P evs initial_world)) in
  e = [] \/
  e = lit "Please speak a valid input." \/
  e = lit "Sorry, there was an error with speech recognition." \/
  e = lit "Sorry, there was an issue processing the request.".
Proof.
  cbv zeta.
  assert (H : In (error (st (run P evs initial_world))) error_messages).
  { apply (run_invariant P (fun w => In (error (st w)) error_messages)).
    - intros ev w Hw. rewrite step_run. cbn [st]. unfold step_state.
      destruct ev as [ | | value | | index | | availableVoices | id ev' ];
        try exact Hw.
      + destruct (handled_state_error P (userInput (st w)) (st w)) as [H|H];
          [exact H | now rewrite H].
      + destruct (nth_error (recognitions w) id) as [[r|]|]; try exact Hw.
        destruct ev' as [ | t | code | ]; try exact Hw.
        * cbn [error with_isModalOpen].
          destruct (handled_state_error P t (with_userInput t (st w)))
            as [H|H]; [exact H | now rewrite H].
        * unfold error_messages. cbn [error reset_flags with_isModalOpen
            with_isRecording with_isLoading with_error In]. tauto.
    - unfold error_messages. cbn. tauto. }
  unfold error_messages in H. cbn [In] in H.
  destruct H as [H|[H|[H|[H|[]]]]]; rewrite <- H; tauto.
Qed.

(** X2. In every state the component reaches, the Listening modal is open
    only while the microphone is marked as recording. *)
Theorem modal_open_only_while_recording (P : Platform) (evs : list Event) :
  isModalOpen (st (run P evs initial_world)) = true ->
  isRecording (st (run P evs initial_world)) = true.
Proof.
  apply (run_invariant P
           (fun w => isModalOpen (st w) = true -> isRecording (st w) = true)).
  - intros ev w Hw. rewrite step_run. cbn [st]. unfold step_state.
    destruct ev as [ | | value | | index | | availableVoices | id ev' ];
      try exact Hw; try (cbn; discriminate).
    + destruct (handled_state_flags P (userInput (st w)) (st w))
        as (Hr & Hm & _). now rewrite Hr, Hm.
    + destruct (nth_error (recognitions w) id) as [[r|]|]; try exact Hw.
      destruct ev' as [ | t | code | ]; cbn; try discriminate. reflexivity.
  - cbn. discriminate.
Qed.

Lemma modal_open_only_while_recording_witness :
  isModalOpen (st Scenario.listening) = true /\
  isRecording (st Scenario.listening) = true.
Proof.
  split; [reflexivity|].
  apply (modal_open_only_while_recording Scenario.friendly
           [ClickMic; FromRecognition 0 Started]).
  reflexivity.
Defined.

Lemma step_effects_no_recognition (P : Platform) (ev : Event) (w : World) :
  ev <> ClickMic ->
  filter is_recognition_start (step_effects P ev w) = [] /\
  filter is_recognition_new (step_effects P ev w) = [].
Proof.
  intros Hev. unfold step_effects.
  destruct ev as [ | | value | | index | | availableVoices | id ev' ];
    try (split; reflexivity).
  - congruence.
  - apply handled_effects_no_recognition.
  - destruct (nth_error (recognitions w) id) as [[r|]|];
      try (split; reflexivity).
    destruct ev' as [ | t | code | ]; try (split; reflexivity).
    cbn [filter is_recognition_start is_recognition_new].
    apply handled_effects_no_recognition.
Qed.

Lemma recognition_bookkeeping_run (P : Platform) (evs : list Event) :
  recognition_bookkeeping (run P evs initial_world).
Proof.
  apply (run_invariant P recognition_bookkeeping).
  - intros ev w (Hnew & Hstart & Hinst). unfold recognition_bookkeeping.
    rewrite step_run.
    cbn [st trace recognitions]. rewrite !filter_app, Hnew, Hstart.
    assert (Hmic : ev = ClickMic \/ ev <> ClickMic)
      by (destruct ev; (now left) || (right; discriminate)).
    destruct Hmic as [->|Hev].
    + unfold step_effects, step_recognitions.
      destruct (recognition_available P).
      * rewrite length_app. cbn [List.length]. rewrite Nat.add_1_r, seq_S.
        rewrite !map_app. cbn. repeat split.
        apply Forall_app. split; [exact Hinst|].
        constructor; [discriminate | constructor].
      * cbn. rewrite !app_nil_r. repeat split. exact Hinst.
    + destruct (step_effects_no_recognition P ev w Hev) as [Hs Hn].
      rewrite Hs, Hn, !app_nil_r.
      assert (Hrec : step_recognitions P ev w = recognitions w)
        by (destruct ev; congruence || reflexivity).
      rewrite Hrec. repeat split. exact Hinst.
  - unfold recognition_bookkeeping. cbn. repeat split. constructor.
Qed.

(** X3. In every run, each recognition instance is constructed once and
    started once, in creation order, and nothing else is ever started; and
    every instance has its callbacks installed by the time its creating
    handler returns. *)
Theorem every_instance_is_started_exactly_once
  (P : Platform) (evs : list Event) :
  let w := run P evs initial_world in
  let n := List.length (recognitions w) in
  filter is_recognition_new (trace w) = map RecognitionNew (seq 0 n) /\
  filter is_recognition_start (trace w) = map RecognitionStart (seq 0 n) /\
  Forall (fun callbacks => callbacks <> None) (recognitions w).
Proof. cbv zeta. exact (recognition_bookkeeping_run P evs). Qed.

Lemma length_recognitions_run (P : Platform) (evs : list Event) (w : World) :
  List.length (recognitions (run P evs w)) =
  List.length (recognitions w) +
  (if recognition_available P
   then List.length (filter is_click_mic evs) else 0).
Proof.
  revert w. induction evs as [|ev evs IH]; intros w.
  - cbn. destruct (recognition_available P); lia.
  - cbn [run fold_left]. fold (run P evs (step P ev w)). rewrite IH.
    rewrite step_run. cbn [recognitions]. unfold step_recognitions.
    destruct ev; cbn [filter is_click_mic];
      destruct (recognition_available P); cbn [List.length];
      try rewrite length_app; cbn [List.length]; lia.
Qed.

(** X4. The number of recognition instances a run constructs (and starts)
    is the number of clicks on the microphone when the platform has speech
    recognition, and zero when it has not: no other event starts a capture
    cycle, and no click is ignored. *)
Theorem one_capture_cycle_per_mic_click (P : Platform) (evs : list Event) :
  start_calls (trace (run P evs initial_world)) =
  (if recognition_available P
   then List.length (filter is_click_mic evs) else 0) /\
  new_calls (trace (run P evs initial_world)) =
  start_calls (trace (run P evs initial_world)).
Proof.
  pose proof (recognition_bookkeeping_run P evs) as H.
  destruct H as (Hnew & Hstart & _).
  unfold start_calls, new_calls. rewrite Hnew, Hstart.
  rewrite !length_map, !length_seq, length_recognitions_run.
  cbn [recognitions initial_world List.length]. split; reflexivity.
Qed.

Lemma cancel_then_speak_app (us1 us2 : list (option Utterance)) :
  cancel_then_speak (us1 ++ us2) = cancel_then_speak us1 ++ cancel_then_speak us2.
Proof. apply flat_map_app. Qed.

Lemma step_effects_synth (P : Platform) (ev : Event) (w : World) :
  exists us : list (option Utterance),
    synth_calls (step_effects P ev w) = cancel_then_speak us /\
    List.length us <= List.length (fetches (step_effects P ev w)).
Proof.
  unfold step_effects.
  destruct ev as [ | | value | | index | | availableVoices | id ev' ];
    try (exists []; split; [reflexivity | cbn; lia]).
  - destruct (recognition_available P); exists []; split;
      try reflexivity; cbn; lia.
  - apply handled_effects_synth.
  - destruct (nth_error (recognitions w) id) as [[r|]|];
      try (exists []; split; [reflexivity | cbn; lia]).
    destruct ev' as [ | t | code | ];
      try (exists []; split; [reflexivity | cbn; lia]).
    destruct (handled_effects_synth P r t) as (us & Hs & Hl).
    exists us. split; [exact Hs | exact Hl].
Qed.

(** X5. Along every run the calls on the speech synthesis are blocks of one
    [cancel()] followed by at most one [speak(utterance)]: nothing is
    spoken unless the running speech was cancelled by the call just before
    (the [speak] is missing when the utterance could not be made), and
    there are never more such blocks than requests sent to the service. *)
Theorem speech_is_cancel_then_speak_per_request
  (P : Platform) (evs : list Event) :
  exists us : list (option Utterance),
    synth_calls (trace (run P evs initial_world)) = cancel_then_speak us /\
    List.length us <=
      List.length (fetches (trace (run P evs initial_world))).
Proof.
  apply (run_invariant P
    (fun w => exists us : list (option Utterance),
       synth_calls (trace w) = cancel_then_speak us /\
       List.length us <= List.length (fetches (trace w)))).
  - intros ev w (us & Hs & Hl). rewrite step_run. cbn [trace].
    destruct (step_effects_synth P ev w) as (us' & Hs' & Hl').
    exists (us ++ us'). rewrite synth_calls_app, fetches_app, Hs, Hs'.
    rewrite cancel_then_speak_app, !length_app. split; [reflexivity | lia].
  - exists []. split; [reflexivity | cbn; lia].
Qed.

(** ** Cancel *)

(** X6. The modal's Cancel button closes the modal and stops nothing.  It
    lowers [isModalOpen] and touches no other cell (the loading and
    recording flags stay as they are), makes no platform call and leaves
    the recognition instances; and when the capture cycle later delivers
    its result, the component ends in exactly the world it would have
    reached without the Cancel: the transcript is stored, submitted and
    answered all the same. *)
Theorem cancel_does_not_stop_the_capture
  (P : Platform) (w : World) (id : nat) (r : State) (t : jsstring) :
  nth_error (recognitions w) id = Some (Some r) ->
  isModalOpen (st (step P ClickCancel w)) = false /\
  st (step P ClickCancel w) = with_isModalOpen false (st w) /\
  isLoading (st (step P ClickCancel w)) = isLoading (st w) /\
  isRecording (st (step P ClickCancel w)) = isRecording (st w) /\
  trace (step P ClickCancel w) = trace w /\
  recognitions (step P ClickCancel w) = recognitions w /\
  step P (FromRecognition id (Result t)) (step P ClickCancel w) =
  step P (FromRecognition id (Result t)) w.
Proof.
  intros Hid. do 6 (split; [reflexivity|]).
  rewrite (step_run P ClickCancel w).
  rewrite !(step_run P (FromRecognition id (Result t))).
  unfold step_state, step_effects, step_recognitions.
  cbn [st trace recognitions]. rewrite Hid, app_nil_r. f_equal.
  handled_cases P t; reflexivity.
Qed.

Lemma cancel_does_not_stop_the_capture_witness :
  isModalOpen (st Scenario.listening) = true /\
  isModalOpen (st Scenario.cancelled) = false /\
  step Scenario.friendly Scenario.late_result Scenario.cancelled =
  step Scenario.friendly Scenario.late_result Scenario.listening.
Proof.
  pose proof (@cancel_does_not_stop_the_capture Scenario.friendly
                Scenario.listening 0 initial_state (lit "hello") eq_refl)
    as (Hclosed & _ & _ & _ & _ & _ & Hsame).
  split; [reflexivity|]. split; [exact Hclosed | exact Hsame].
Defined.

(** ** The voice catalog *)

(** X7. A refresh of the voice catalog replaces [voices] and keeps the
    selected index as it is, without clamping it: when the new catalog has
    no entry at that index, the reply to the next typed submission (no
    other event in between) is spoken with no voice set. *)
Theorem catalog_refresh_keeps_the_selected_index
  (P : Platform) (availableVoices : list Voice) (w : World)
  (res : Response) (rv : jsstring) :
  List.length availableVoices <= selectedVoice (st w) ->
  JsString.blank (userInput (st w)) = false ->
  service P service_url (request_init (userInput (st w))) = Responded res ->
  res_ok res = true ->
  res_body res = Some (JObj [(lit "response", JStr rv)]) ->
  let w1 := step P (VoicesChanged availableVoices) w in
  let w2 := step P Submit w1 in
  voices (st w1) = availableVoices /\
  selectedVoice (st w1) = selectedVoice (st w) /\
  synth_calls (trace w2) =
    synth_calls (trace w) ++
    [SynthCancel; SynthSpeak {| utt_text := JStr rv; utt_voice := None |}].
Proof.
  intros Hout Hb Hs Hok Hbody w1 w2. subst w1 w2.
  split; [reflexivity|]. split; [reflexivity|].
  unfold step at 1. unfold handler.
  rewrite (handleUserInput_answered P _ (userInput (st w)) _ res rv Hb Hs Hok Hbody).
  cbn [snd trace]. rewrite !synth_calls_app. unfold spoken.
  cbn [st step handler fetchVoices setVoices set_state snd voices selectedVoice
       with_voices trace].
  apply nth_error_None in Hout. rewrite Hout. cbn. rewrite ?app_nil_r.
  reflexivity.
Qed.

Lemma catalog_refresh_keeps_the_selected_index_witness :
  let w := run Scenario.friendly
             [VoicesChanged [Scenario.alice; Scenario.bruno]; ClickVoice 1;
              ChangeInput (lit "hello")]
             initial_world in
  let w2 := run Scenario.friendly
              [VoicesChanged [Scenario.alice]; Submit] w in
  selectedVoice (st w2) = 1 /\
  synth_calls (trace w2) =
    [SynthCancel;
     SynthSpeak {| utt_text := JStr (lit "hi there"); utt_voice := None |}].
Proof.
  pose proof (@catalog_refresh_keeps_the_selected_index
                Scenario.friendly [Scenario.alice]
                (run Scenario.friendly
                   [VoicesChanged [Scenario.alice; Scenario.bruno];
                    ClickVoice 1; ChangeInput (lit "hello")]
                   initial_world)
                Scenario.hi_there (lit "hi there")
                (le_n 1) eq_refl eq_refl eq_refl eq_refl) as H.
  cbv zeta in H. destruct H as (_ & _ & Hsynth).
  cbv zeta. split; [reflexivity | exact Hsynth].
Defined.

(** X8. Only their own event writes the voice cells: [voices] changes on a
    catalog refresh only, [selectedVoice] on a click on a voice only,
    [showVoices] on the show/hide button only.  In particular no
    submission, capture event or cancel resets the selection. *)
Theorem voice_cells_change_only_on_their_event
  (P : Platform) (ev : Event) (w : World) :
  ((forall vs, ev <> VoicesChanged vs) ->
   voices (st (step P ev w)) = voices (st w)) /\
  ((forall index, ev <> ClickVoice index) ->
   selectedVoice (st (step P ev w)) = selectedVoice (st w)) /\
  (ev <> ToggleVoices ->
   showVoices (st (step P ev w)) = showVoices (st w)).
Proof.
  rewrite step_run. cbn [st]. unfold step_state.
  pose proof (handled_state_flags P (userInput (st w)) (st w))
    as (_ & _ & _ & Hs & Hv & Hsh).
  destruct ev as [ | | value | | index | | availableVoices | id ev' ];
    (split; [|split]); intros Hev; try reflexivity; try assumption;
    try (exfalso; now eapply Hev); try (now elim Hev).
  all: destruct (nth_error (recognitions w) id) as [[r|]|]; try reflexivity;
    destruct ev' as [ | t | code | ]; try reflexivity;
    cbn [voices selectedVoice showVoices with_isModalOpen];
    now destruct (handled_state_flags P t (with_userInput t (st w)))
      as (_ & _ & _ & Hs' & Hv' & Hsh').
Qed.

Lemma voice_cells_change_only_on_their_event_witness :
  selectedVoice (st (step Scenario.friendly Submit
                       (step Scenario.friendly (ClickVoice 1)
                          Scenario.typed_hello))) = 1.
Proof.
  apply (proj1 (proj2 (@voice_cells_change_only_on_their_event
                         Scenario.friendly Submit
                         (step Scenario.friendly (ClickVoice 1)
                            Scenario.typed_hello)))).
  intros index. discriminate.
Defined.

(** X9. The messages on display stay until a submission or a capture
    event: Cancel, typing, a click on a voice, the show/hide button, a
    catalog refresh and a click on the microphone change neither [error]
    nor [response]. *)
Theorem messages_change_only_on_submission_or_capture
  (P : Platform) (ev : Event) (w : World) :
  ev <> Submit ->
  (forall id ev', ev <> FromRecognition id ev') ->
  error (st (step P ev w)) = error (st w) /\
  response (st (step P ev w)) = response (st w).
Proof.
  intros Hsub Hrec. rewrite step_run. cbn [st]. unfold step_state.
  destruct ev as [ | | value | | index | | availableVoices | id ev' ];
    try (split; reflexivity).
  - congruence.
  - exfalso. now eapply Hrec.
Qed.

Lemma messages_change_only_on_submission_or_capture_witness :
  let w := step Scenario.friendly Submit initial_world in
  error (st w) = lit "Please speak a valid input." /\
  error (st (step Scenario.friendly ClickCancel w)) =
    lit "Please speak a valid input.".
Proof.
  cbv zeta. split; [reflexivity|].
  destruct (@messages_change_only_on_submission_or_capture
              Scenario.friendly ClickCancel
              (step Scenario.friendly Submit initial_world))
    as [Herr _]; [discriminate | intros id ev'; discriminate |].
  rewrite Herr. reflexivity.
Defined.

(** ** Replies that are not the expected object *)

Lemma jsstring_eqb_eq (a b : jsstring) : jsstring_eqb a b = true -> a = b.
Proof.
  unfold jsstring_eqb. destruct (list_eq_dec N.eq_dec a b); [easy | discriminate].
Qed.

Lemma own_property_absent (props : list (jsstring * jsval)) (key : jsstring) :
  (forall v, ~ In (key, v) props) -> own_property props key = None.
Proof.
  induction props as [|[k v] rest IH]; intros Habs; [reflexivity|].
  cbn [own_property]. rewrite IH.
  - destruct (jsstring_eqb k key) eqn:Hk; [|reflexivity].
    apply jsstring_eqb_eq in Hk. subst k. exfalso. apply (Habs v). now left.
  - intros v' Hin. apply (Habs v'). now right.
Qed.

(** X10. A 2xx reply whose JSON body is an object without a [response]
    member is not an error for [handleUserInput]: [undefined] is stored in
    [response], the error is cleared, and the speech synthesis is called
    with an utterance made from [undefined]. *)
Theorem reply_without_response_member_is_stored_as_undefined
  (P : Platform) (r : State) (input : jsstring) (w : World)
  (res : Response) (props : list (jsstring * jsval)) :
  JsString.blank input = false ->
  service P service_url (request_init input) = Responded res ->
  res_ok res = true ->
  res_body res = Some (JObj props) ->
  (forall v, ~ In (lit "response", v) props) ->
  let w' := snd (handleUserInput P r input w) in
  response (st w') = Undefined /\
  error (st w') = [] /\
  synth_calls (trace w') =
    synth_calls (trace w) ++
    [SynthCancel;
     SynthSpeak {| utt_text := Undefined;
                   utt_voice := nth_error (voices r) (selectedVoice r) |}].
Proof.
  intros Hb Hs Hok Hbody Habs w'. subst w'.
  rewrite (handleUserInput_submitted P r input w Hb).
  assert (Hsettle : settle P input = inl Undefined).
  { unfold settle. rewrite Hs, Hok, Hbody. unfold get_response.
    now rewrite (own_property_absent props (lit "response") Habs). }
  unfold submitted. rewrite Hsettle. cbn [throws_on_ToString fst snd st trace].
  repeat split.
  rewrite !synth_calls_app, synth_calls_requested. reflexivity.
Qed.

Lemma reply_without_response_member_is_stored_as_undefined_witness :
  response (st (snd (handleUserInput Replies.misnamed initial_state
                       (lit "hello") initial_world))) = Undefined.
Proof.
  refine (proj1 (@reply_without_response_member_is_stored_as_undefined
                   Replies.misnamed initial_state (lit "hello") initial_world
                   Replies.other_member [(lit "reply", JStr (lit "hi"))]
                   eq_refl eq_refl eq_refl eq_refl _)).
  intros v [H|[]]. discriminate H.
Defined.

(** X11. A 2xx reply whose JSON body is [null] ends as a failure: reading
    [data.response] throws inside the [try], so [error] gets the message
    'Sorry, there was an issue processing the request.', [response] keeps
    its value, nothing is spoken and the loading flag is lowered. *)
Theorem null_reply_is_a_failure
  (P : Platform) (r : State) (input : jsstring) (w : World) (res : Response) :
  JsString.blank input = false ->
  service P service_url (request_init input) = Responded res ->
  res_ok res = true ->
  res_body res = Some JNull ->
  let w' := snd (handleUserInput P r input w) in
  error (st w') = lit "Sorry, there was an issue processing the request." /\
  response (st w') = response (st w) /\
  isLoading (st w') = false /\
  synth_calls (trace w') = synth_calls (trace w) /\
  trace w' =
    trace w ++
    [Fetch service_url (request_init input); ResJson res;
     ConsoleError [LogStr (lit "Error fetching chatbot response:");
                   LogExn (TypeErrorPropertyOf JNull)]].
Proof.
  intros Hb Hs Hok Hbody w'. subst w'.
  rewrite (handleUserInput_submitted P r input w Hb).
  assert (Hsettle : settle P input = inr (TypeErrorPropertyOf JNull)).
  { unfold settle. now rewrite Hs, Hok, Hbody. }
  unfold submitted. rewrite Hsettle. cbn [fst snd st trace].
  assert (Hreq : requested P input =
                 [Fetch service_url (request_init input); ResJson res]).
  { unfold requested. now rewrite Hs, Hok. }
  rewrite Hreq. repeat split.
  rewrite !synth_calls_app. cbn. now rewrite app_nil_r.
Qed.

Lemma null_reply_is_a_failure_witness :
  let w := Scenario.after_exchange in
  error (st (snd (handleUserInput Replies.nulling (st w) (lit "hello") w))) =
    lit "Sorry, there was an issue processing the request." /\
  response (st (snd (handleUserInput Replies.nulling (st w) (lit "hello") w))) =
    JStr (lit "hi there").
Proof.
  cbv zeta.
  pose proof (@null_reply_is_a_failure
                Replies.nulling (st Scenario.after_exchange) (lit "hello")
                Scenario.after_exchange Replies.null_body
                eq_refl eq_refl eq_refl eq_refl) as H.
  cbv zeta in H. destruct H as (Herr & Hresp & _).
  split; [exact Herr | exact Hresp].
Defined.

(** X12. The body of a reply is read ([res.json()]) exactly when the
    request got a reply with a 2xx status: never after a network failure,
    never for another status. *)
Theorem body_is_read_only_for_a_2xx_reply
  (P : Platform) (r : State) (input : jsstring) (w : World) :
  JsString.blank input = false ->
  filter is_res_json (trace (snd (handleUserInput P r input w))) =
  filter is_res_json (trace w) ++
  match service P service_url (request_init input) with
  | NetworkFailure => []
  | Responded res => if res_ok res then [ResJson res] else []
  end.
Proof.
  intros Hb. rewrite handleUserInput_run. cbn [snd trace].
  rewrite filter_app. f_equal.
  unfold handled_effects, settle, requested, spoken. rewrite Hb.
  destruct (service P service_url (request_init input)) as [|res];
    [reflexivity|].
  destruct (res_ok res); [|reflexivity].
  destruct (res_body res) as [data|]; [|reflexivity].
  destruct (get_response data) as [v|e]; [|reflexivity].
  now destruct (throws_on_ToString v).
Qed.

Lemma body_is_read_only_for_a_2xx_reply_witness :
  filter is_res_json
    (trace (snd (handleUserInput Scenario.failing initial_state (lit "hello")
                   initial_world))) = [].
Proof.
  apply (@body_is_read_only_for_a_2xx_reply Scenario.failing initial_state
           (lit "hello") initial_world eq_refl).
Defined.

(** ** What is displayed *)

Lemma nth_error_voice_items (selected index : nat) (vs : list Voice) (i : nat) :
  nth_error (voice_items selected index vs) i =
  option_map
    (fun voice =>
       {| item_key := voice_name voice;
          item_selected := Nat.eqb selected (index + i);
          item_name := voice_name voice;
          item_lang := voice_lang voice |})
    (nth_error vs i).
Proof.
  revert index i. induction vs as [|voice vs IH]; intros index [|i]; cbn;
    try reflexivity.
  - now rewrite Nat.add_0_r.
  - rewrite IH. now rewrite Nat.add_succ_r.
Qed.

Lemma map_voice_items (selected index : nat) (vs : list Voice) :
  map item_name (voice_items selected index vs) = map voice_name vs /\
  map item_lang (voice_items selected index vs) = map voice_lang vs.
Proof.
  revert index. induction vs as [|voice vs IH]; intros index; cbn.
  - split; reflexivity.
  - destruct (IH (S index)) as [Hn Hl]. now rewrite Hn, Hl.
Qed.

Lemma selected_voice_items (selected index : nat) (vs : list Voice) :
  List.length (filter item_selected (voice_items selected index vs)) =
  if (index <=? selected) && (selected <? index + List.length vs)
  then 1 else 0.
Proof.
  revert index. induction vs as [|voice vs IH]; intros index.
  - cbn [voice_items filter List.length]. rewrite Nat.add_0_r.
    destruct (Nat.leb_spec index selected), (Nat.ltb_spec selected index);
      cbn; lia.
  - cbn [voice_items filter item_selected List.length].
    destruct (Nat.eqb_spec selected index) as [->|Hne];
      cbn [List.length]; rewrite IH.
    + destruct (Nat.leb_spec (S index) index); [lia|].
      destruct (Nat.leb_spec index index); [|lia].
      destruct (Nat.ltb_spec index (index + S (List.length vs))); [|lia].
      reflexivity.
    + destruct (Nat.leb_spec (S index) selected),
        (Nat.ltb_spec selected (S index + List.length vs)),
        (Nat.leb_spec index selected),
        (Nat.ltb_spec selected (index + S (List.length vs)));
        cbn; lia.
Qed.

(** X13. When the voice list is shown it has one item per voice of the
    catalog, in catalog order, with the voice's name and language; the item
    at position [i] is marked selected exactly when [selectedVoice] is [i],
    so exactly one item is marked when the selected index is within the
    catalog and none is when it is not. *)
Theorem voice_list_marks_exactly_the_selected_voice
  (number_truthy : jsstring -> bool) (s : State) :
  showVoices s = true ->
  exists items : list VoiceItem,
    view_voice_list (render number_truthy s) = Some items /\
    map item_name items = map voice_name (voices s) /\
    map item_lang items = map voice_lang (voices s) /\
    (forall i item, nth_error items i = Some item ->
                    item_selected item = Nat.eqb (selectedVoice s) i) /\
    List.length (filter item_selected items) =
      if selectedVoice s <? List.length (voices s) then 1 else 0.
Proof.
  intros Hshow. exists (voice_items (selectedVoice s) 0 (voices s)).
  split; [cbn; now rewrite Hshow|].
  destruct (map_voice_items (selectedVoice s) 0 (voices s)) as [Hn Hl].
  split; [exact Hn|]. split; [exact Hl|]. split.
  - intros i item Hi. rewrite nth_error_voice_items in Hi.
    destruct (nth_error (voices s) i); [|discriminate].
    cbn in Hi. injection Hi as <-. reflexivity.
  - rewrite selected_voice_items. reflexivity.
Qed.

Lemma voice_list_marks_exactly_the_selected_voice_witness :
  let s := st (run Scenario.friendly
                 [VoicesChanged [Scenario.alice; Scenario.bruno];
                  ClickVoice 1; ToggleVoices] initial_world) in
  exists items : list VoiceItem,
    view_voice_list (render (fun _ => true) s) = Some items /\
    map item_selected items = [false; true].
Proof.
  cbv zeta.
  destruct (@voice_list_marks_exactly_the_selected_voice (fun _ => true)
              (st (run Scenario.friendly
                     [VoicesChanged [Scenario.alice; Scenario.bruno];
                      ClickVoice 1; ToggleVoices] initial_world)) eq_refl)
    as (items & Hview & _).
  exists items. split; [exact Hview|].
  cbn in Hview. injection Hview as <-. reflexivity.
Defined.

(** X14. The exchange on display pairs the stored response with the LIVE
    content of the input box: typing in the box while a response is shown
    changes the 'Your Input' line of that exchange to the text being typed,
    and leaves the response. *)
Theorem displayed_exchange_follows_the_input_box
  (number_truthy : jsstring -> bool) (P : Platform) (w : World)
  (value : jsstring) :
  truthy number_truthy (response (st w)) = true ->
  view_response (render number_truthy (st w)) =
    ResponseDisplay (userInput (st w)) (response (st w)) /\
  view_response (render number_truthy (st (step P (ChangeInput value) w))) =
    ResponseDisplay value (response (st w)).
Proof.
  intros Ht. rewrite step_run. cbn. now rewrite Ht.
Qed.

Lemma displayed_exchange_follows_the_input_box_witness :
  let w := step Scenario.friendly Submit Scenario.typed_hello in
  view_response (render (fun _ => true) (st w)) =
    ResponseDisplay (lit "hello") (JStr (lit "hi there")) /\
  view_response
    (render (fun _ => true)
       (st (step Scenario.friendly (ChangeInput (lit "bye")) w))) =
    ResponseDisplay (lit "bye") (JStr (lit "hi there")).
Proof.
  cbv zeta.
  apply (@displayed_exchange_follows_the_input_box (fun _ => true)
           Scenario.friendly
           (step Scenario.friendly Submit Scenario.typed_hello)
           (lit "bye") eq_refl).
Defined.

(** X15. After a typed submission answered with a 2xx status and the body
    [{"response": rv}], [rv] not empty, the component shows the exchange
    (the text submitted and [rv]), no 'Loading...' and no error message,
    and the input box still holds the text submitted: it is not
    cleared. *)
Theorem answered_submission_is_displayed
  (number_truthy : jsstring -> bool) (P : Platform) (w : World)
  (res : Response) (rv : jsstring) :
  JsString.blank (userInput (st w)) = false ->
  service P service_url (request_init (userInput (st w))) = Responded res ->
  res_ok res = true ->
  res_body res = Some (JObj [(lit "response", JStr rv)]) ->
  rv <> [] ->
  let v := render number_truthy (st (step P Submit w)) in
  view_loading v = false /\
  view_error v = None /\
  view_response v = ResponseDisplay (userInput (st w)) (JStr rv) /\
  view_input_value v = userInput (st w).
Proof.
  intros Hb Hs Hok Hbody Hrv v. subst v. rewrite step_run. cbn [st step_state].
  assert (Hsettle : settle P (userInput (st w)) = inl (JStr rv)).
  { unfold settle. rewrite Hs, Hok, Hbody. reflexivity. }
  unfold handled_state. rewrite Hb, Hsettle. cbn.
  destruct rv as [|c rv]; [congruence|]. repeat split.
Qed.

Lemma answered_submission_is_displayed_witness :
  let v := render (fun _ => true)
             (st (step Scenario.friendly Submit Scenario.typed_hello)) in
  view_response v = ResponseDisplay (lit "hello") (JStr (lit "hi there")) /\
  view_input_value v = lit "hello".
Proof.
  pose proof (@answered_submission_is_displayed (fun _ => true)
                Scenario.friendly Scenario.typed_hello Scenario.hi_there
                (lit "hi there") eq_refl eq_refl eq_refl eq_refl) as H.
  cbv zeta in H. destruct H as (_ & _ & Hresp & Hin); [discriminate|].
  cbv zeta. split; [exact Hresp | exact Hin].
Defined.

(** X16. A 2xx reply whose [response] member is the empty string is stored
    and handed to the speech synthesis like any other, but it is falsy:
    no exchange is displayed afterwards (an exchange shown before is gone),
    and no error message is shown either. *)
Theorem empty_reply_is_spoken_but_not_displayed
  (number_truthy : jsstring -> bool) (P : Platform) (w : World)
  (res : Response) :
  JsString.blank (userInput (st w)) = false ->
  service P service_url (request_init (userInput (st w))) = Responded res ->
  res_ok res = true ->
  res_body res = Some (JObj [(lit "response", JStr [])]) ->
  let w' := step P Submit w in
  view_response (render number_truthy (st w')) = RawChild (JStr []) /\
  view_error (render number_truthy (st w')) = None /\
  synth_calls (trace w') =
    synth_calls (trace w) ++
    [SynthCancel;
     SynthSpeak {| utt_text := JStr [];
                   utt_voice := nth_error (voices (st w))
                                  (selectedVoice (st w)) |}].
Proof.
  intros Hb Hs Hok Hbody w'. subst w'. rewrite step_run.
  cbn [st trace step_state step_effects].
  assert (Hsettle : settle P (userInput (st w)) = inl (JStr [])).
  { unfold settle. rewrite Hs, Hok, Hbody. reflexivity. }
  unfold handled_state, handled_effects. rewrite Hb, Hsettle.
  split; [reflexivity|]. split; [reflexivity|].
  rewrite !synth_calls_app, synth_calls_requested. reflexivity.
Qed.

Lemma empty_reply_is_spoken_but_not_displayed_witness :
  let w := Scenario.after_exchange in
  view_response (render (fun _ => true) (st w)) =
    ResponseDisplay (lit "hello") (JStr (lit "hi there")) /\
  view_response (render (fun _ => true) (st (step Replies.silent Submit w))) =
    RawChild (JStr []).
Proof.
  cbv zeta. split; [reflexivity|].
  apply (@empty_reply_is_spoken_but_not_displayed (fun _ => true)
           Replies.silent Scenario.after_exchange Replies.empty_text
           eq_refl eq_refl eq_refl eq_refl).
Defined.

(** ** A whole capture cycle *)

Lemma nth_error_last {A : Type} (l : list A) (x : A) :
  nth_error (l ++ [x]) (List.length l) = Some x.
Proof. induction l as [|y l IH]; [reflexivity | exact IH]. Qed.

(** A callback of an instance whose closures belong to render [r]. *)
Lemma step_callback (P : Platform) (id : nat) (r : State)
  (ev : RecognitionEvent) (w : World) :
  nth_error (recognitions w) id = Some (Some r) ->
  step P (FromRecognition id ev) w =
  {| st :=
       match ev with
       | Started =>
           with_isModalOpen true
             (with_isRecording true (with_isLoading true (st w)))
       | Result t =>
           with_isModalOpen false
             (handled_state P t (with_userInput t (st w)))
       | Failed _ =>
           reset_flags
             (with_error
                (lit "Sorry, there was an error with speech recognition.")
                (st w))
       | Ended => reset_flags (st w)
       end;
     trace := trace w ++
       match ev with
       | Started => [ConsoleLog [LogStr (lit "Speech recognition started")]]
       | Result t =>
           [ConsoleLog [LogStr (lit "User Input:"); LogVal (JStr t)]]
           ++ handled_effects P r t
       | Failed code =>
           [ConsoleError
              [LogStr (lit "Speech recognition error"); LogVal (JStr code)];
            ConsoleLog [LogStr (lit "Speech recognition ended")]]
       | Ended => [ConsoleLog [LogStr (lit "Speech recognition ended")]]
       end;
     recognitions := recognitions w |}.
Proof.
  intros Hid. rewrite step_run.
  unfold step_state, step_effects, step_recognitions. now rewrite Hid.
Qed.

(** X17. A capture cycle from the click to the end: on a platform with
    speech recognition, a click on the microphone followed by the start,
    a result with a transcript that is not blank, and the end of the
    recognition, with the service answering [{"response": rv}], leaves the
    transcript in the input box, [rv] as the response, no error, the three
    flags down; one request was sent, and [rv] was spoken with the voice
    that was selected when the microphone was clicked. *)
Theorem capture_cycle_round_trip
  (P : Platform) (w : World) (t : jsstring) (res : Response) (rv : jsstring) :
  recognition_available P = true ->
  JsString.blank t = false ->
  service P service_url (request_init t) = Responded res ->
  res_ok res = true ->
  res_body res = Some (JObj [(lit "response", JStr rv)]) ->
  let id := List.length (recognitions w) in
  let w' := run P [ClickMic; FromRecognition id Started;
                   FromRecognition id (Result t); FromRecognition id Ended] w in
  userInput (st w') = t /\
  response (st w') = JStr rv /\
  error (st w') = [] /\
  isLoading (st w') = false /\
  isRecording (st w') = false /\
  isModalOpen (st w') = false /\
  fetches (trace w') =
    fetches (trace w) ++ [Fetch service_url (request_init t)] /\
  synth_calls (trace w') =
    synth_calls (trace w) ++
    [SynthCancel;
     SynthSpeak {| utt_text := JStr rv;
                   utt_voice := nth_error (voices (st w))
                                  (selectedVoice (st w)) |}].
Proof.
  intros Ha Hb Hs Hok Hbody id w'. subst id w'.
  assert (Hsettle : settle P t = inl (JStr rv)).
  { unfold settle. rewrite Hs, Hok, Hbody. reflexivity. }
  unfold run. cbn [fold_left].
  assert (E1 : step P ClickMic w =
               {| st := st w;
                  trace := trace w ++
                    [RecognitionNew (List.length (recognitions w));
                     RecognitionConfigure (List.length (recognitions w))
                       (lit "en-US") false 1;
                     RecognitionStart (List.length (recognitions w))];
                  recognitions := recognitions w ++ [Some (st w)] |}).
  { rewrite step_run. unfold step_state, step_effects, step_recognitions.
    now rewrite Ha. }
  rewrite E1. clear E1.
  rewrite (step_callback P (List.length (recognitions w)) (st w) Started)
    by apply nth_error_last.
  rewrite (step_callback P (List.length (recognitions w)) (st w) (Result t))
    by apply nth_error_last.
  rewrite (step_callback P (List.length (recognitions w)) (st w) Ended)
    by apply nth_error_last.
  cbn [st trace recognitions].
  unfold handled_state, handled_effects. rewrite Hb, Hsettle.
  cbn [userInput response error isLoading isRecording isModalOpen reset_flags
       with_isModalOpen with_isRecording with_isLoading with_response
       with_error with_userInput].
  repeat split.
  - rewrite !fetches_app, fetches_requested. cbn. now rewrite !app_nil_r.
  - rewrite !synth_calls_app, synth_calls_requested. cbn.
    now rewrite !app_nil_r.
Qed.

Lemma capture_cycle_round_trip_witness :
  let w := run Scenario.friendly
             [VoicesChanged [Scenario.alice; Scenario.bruno]] initial_world in
  let w' := run Scenario.friendly
              [ClickMic; FromRecognition 0 Started;
               FromRecognition 0 (Result (lit "hello"));
               FromRecognition 0 Ended] w in
  userInput (st w') = lit "hello" /\
  response (st w') = JStr (lit "hi there") /\
  isRecording (st w') = false.
Proof.
  pose proof (@capture_cycle_round_trip Scenario.friendly
                (run Scenario.friendly
                   [VoicesChanged [Scenario.alice; Scenario.bruno]]
                   initial_world)
                (lit "hello") Scenario.hi_there (lit "hi there")
                eq_refl eq_refl eq_refl eq_refl eq_refl) as H.
  cbv zeta in H. destruct H as (Hu & Hr & _ & _ & Hrec & _).
  cbv zeta. split; [exact Hu|]. split; [exact Hr | exact Hrec].
Defined.

(** ** The voice a reply is spoken with *)









(** ** A reply that cannot be made into an utterance *)

Lemma own_property_present (props : list (jsstring * jsval)) (key : jsstring)
  (v : jsval) :
  In (key, v) props -> exists v' : jsval, own_property props key = Some v'.
Proof.
  induction props as [|[k x] rest IH]; intros Hin; [contradiction|].
  cbn [own_property]. destruct (own_property rest key) as [v'|] eqn:Hrest.
  - now exists v'.
  - destruct Hin as [Heq|Hin].
    + injection Heq as -> ->. unfold jsstring_eqb.
      destruct (list_eq_dec N.eq_dec key key); [now exists v | congruence].
    + destruct (IH Hin) as [v' Hv']. discriminate.
Qed.

(** X18. A 2xx reply whose [response] member is an object with a member
    named [toString] is stored, but no utterance can be made of it: the
    running speech is cancelled, the utterance constructor throws inside
    the [try], nothing is spoken, and the submission ends with BOTH the
    object in [response] and the message
    'Sorry, there was an issue processing the request.' in [error]; the
    loading flag is lowered. *)
Theorem reply_hiding_toString_is_stored_and_fails
  (P : Platform) (r : State) (input : jsstring) (w : World)
  (res : Response) (props : list (jsstring * jsval)) (x : jsval) :
  JsString.blank input = false ->
  service P service_url (request_init input) = Responded res ->
  res_ok res = true ->
  res_body res = Some (JObj [(lit "response", JObj props)]) ->
  In (lit "toString", x) props ->
  let w' := snd (handleUserInput P r input w) in
  fst (handleUserInput P r input w) = inl tt /\
  response (st w') = JObj props /\
  error (st w') = lit "Sorry, there was an issue processing the request." /\
  isLoading (st w') = false /\
  trace w' =
    trace w ++
    [Fetch service_url (request_init input); ResJson res; SynthCancel;
     ConsoleError [LogStr (lit "Error fetching chatbot response:");
                   LogExn (TypeErrorToPrimitive (JObj props))]].
Proof.
  intros Hb Hs Hok Hbody Hin w'. subst w'.
  rewrite (handleUserInput_submitted P r input w Hb).
  assert (Hsettle : settle P input = inl (JObj props)).
  { unfold settle. rewrite Hs, Hok, Hbody. reflexivity. }
  assert (Hthrows : throws_on_ToString (JObj props) = true).
  { destruct (own_property_present props (lit "toString") x Hin) as [v' Hv'].
    cbn [throws_on_ToString]. now rewrite Hv'. }
  assert (Hreq : requested P input =
                 [Fetch service_url (request_init input); ResJson res]).
  { unfold requested. now rewrite Hs, Hok. }
  unfold submitted. rewrite Hsettle, Hthrows, Hreq. repeat split.
Qed.

Lemma reply_hiding_toString_is_stored_and_fails_witness :
  let w' := snd (handleUserInput Replies.hiding initial_state (lit "hello")
                   initial_world) in
  response (st w') = JObj [(lit "toString", JNull)] /\
  error (st w') = lit "Sorry, there was an issue processing the request." /\
  synth_calls (trace w') = [SynthCancel].
Proof.
  pose proof (@reply_hiding_toString_is_stored_and_fails
                Replies.hiding initial_state (lit "hello") initial_world
                Replies.hidden_toString [(lit "toString", JNull)] JNull
                eq_refl eq_refl eq_refl eq_refl (or_introl eq_refl)) as H.
  cbv zeta in H. destruct H as (_ & Hresp & Herr & _ & Htrace).
  cbv zeta. split; [exact Hresp|]. split; [exact Herr|].
  rewrite Htrace. reflexivity.
Defined.
